(** * The workspace notebooks client (client/service/notebooks.go)

    A shallow embedding of [NotebooksAPI]: every method is a program over
    the three effects the Go code has, namely the remote call
    [a.Client.performQuery], and [Lock] / [Unlock] of the package-level
    mutex [mkdirMtx].  A program is given a sequential semantics ([run]),
    which threads the remote workspace and records the calls that were
    issued, and an interleaving semantics ([pstep]) for goroutines that
    share the mutex. *)

From Stdlib Require Import List String Bool Arith Lia.
From Stdlib Require Import Strings.Byte.
From Stdlib Require Import Sorting.Permutation.
Import ListNotations.
Open Scope string_scope.
Open Scope list_scope.

Set Implicit Arguments.

(** ** Package [model] and [net/http] *)

Module model.
(** Go: [type ObjectType string], [type Language string],
    [type ExportFormat string]. *)
Definition ObjectType := string.
Definition Language := string.
Definition ExportFormat := string.

(** Modelled from the spec: the constants [model.Notebook] and
    [model.Directory] are declared in package [model], outside this file;
    the spec's object descriptor has a type that is "notebook or
    directory", and the two values are distinct strings. *)
Definition Notebook : ObjectType := "NOTEBOOK".
Definition Directory : ObjectType := "DIRECTORY".
End model.

Module http.
Definition MethodGet := "GET".
Definition MethodPost := "POST".
End http.

(** Modelled from the spec: [model.WorkspaceObjectStatus] is declared in
    package [model], outside this file; the spec's object descriptor carries
    a path, a type and a language.  The code of this file reads [ObjectType]
    and [Path] only. *)
Record WorkspaceObjectStatus := {
  ObjectType : model.ObjectType;
  Path : string;
  Language : model.Language
}.

(** Modelled from the spec: [model.NotebookContent], the content blob. *)
Record NotebookContent := { Content : string }.

(** The anonymous struct [notebookList] of [list]. *)
Record notebookListT := { Objects : list WorkspaceObjectStatus }.

(** The request bodies handed to [performQuery] as [data]:
    [model.NotebookImportRequest], [model.NotebookDeleteRequest] and the
    anonymous structs of [Read], [Export], [Mkdirs] and [list]. *)
Inductive Payload :=
| NotebookImportRequest (content path : string) (language : model.Language)
                        (format : model.ExportFormat) (overwrite : bool)
| notebookGetStatusRequest (path : string)
| notebookExportRequest (path : string) (format : model.ExportFormat)
| mkDirsRequest (path : string)
| listRequest (path : string)
| NotebookDeleteRequest (path : string) (recursive : bool).

(** The arguments of one [performQuery] call.  [headers] and [secretsMask]
    are [nil] at every call site of this file. *)
Record Request := {
  method : string;
  endpoint : string;
  apiVersion : string;
  headers : option (list (string * string));
  data : Payload;
  secretsMask : option (list string)
}.

(** The request of [list]. *)
Definition listCall (path : string) : Request :=
  {| method := http.MethodGet; endpoint := "/workspace/list";
     apiVersion := "2.0"; headers := None; data := listRequest path;
     secretsMask := None |}.

(** The package-level mutexes; [mkdirMtx] is the only one. *)
Inductive Mutex := mkdirMtx.

Section Client.

(** Go's [error] values; [nil] is [None]. *)
Context {Err : Type}.

Definition error := option Err.

(** What [performQuery] returns: [([]byte, error)]. *)
Definition Response := (list byte * error)%type.

(** [json.Unmarshal(resp, &v)]: the decoded value and the error.  On an error
    the target may be left partly filled. *)
Class Unmarshaler (T : Type) := json_Unmarshal : list byte -> T -> T * error.

Context {unmarshalStatus : Unmarshaler WorkspaceObjectStatus}
        {unmarshalContent : Unmarshaler NotebookContent}
        {unmarshalList : Unmarshaler notebookListT}.

(** ** Programs *)

(** A program that returns an [A]: it returns, calls the remote service and
    goes on with the response, locks or unlocks a mutex, or has used up the
    recursion depth it was given. *)
Inductive Prog (A : Type) : Type :=
| Ret (a : A)
| Query (req : Request) (k : Response -> Prog A)
| Lock (m : Mutex) (k : Prog A)
| Unlock (m : Mutex) (k : Prog A)
| OutOfFuel.

Arguments OutOfFuel {A}.

Fixpoint bind {A B} (p : Prog A) (f : A -> Prog B) : Prog B :=
  match p with
  | Ret a => f a
  | Query req k => Query req (fun r => bind (k r) f)
  | Lock m k => Lock m (bind k f)
  | Unlock m k => Unlock m (bind k f)
  | OutOfFuel => OutOfFuel
  end.

Notation "x <- p ;; q" := (bind p (fun x => q))
  (at level 61, p at next level, right associativity).
Notation "' pat <- p ;; q" := (bind p (fun x => let pat := x in q))
  (at level 61, pat pattern, p at next level, right associativity).
Notation "p ;; q" := (bind p (fun _ => q))
  (at level 61, right associativity).

Definition performQuery (method path apiVersion : string)
    (headers : option (list (string * string))) (data : Payload)
    (secretsMask : option (list string)) : Prog Response :=
  Query {| method := method; endpoint := path; apiVersion := apiVersion;
           headers := headers; data := data; secretsMask := secretsMask |}
        (fun r => Ret r).

Definition mtx_Lock (m : Mutex) : Prog unit := Lock m (Ret tt).
Definition mtx_Unlock (m : Mutex) : Prog unit := Unlock m (Ret tt).

(** ** The methods of [NotebooksAPI] *)

(** The zero values of the result structs ([var notebookInfo ...]). *)
Definition zeroStatus : WorkspaceObjectStatus :=
  {| ObjectType := ""; Path := ""; Language := "" |}.
Definition zeroContent : NotebookContent := {| Content := "" |}.
(** A nil slice is the empty list: both have length 0 and range over
    nothing. *)
Definition zeroList : notebookListT := {| Objects := [] |}.

Definition Create (path content : string) (language : model.Language)
    (format : model.ExportFormat) (overwrite : bool) : Prog error :=
  let notebookCreateRequest :=
    NotebookImportRequest content path language format overwrite in
  '(_, err) <- performQuery http.MethodPost "/workspace/import" "2.0" None
                            notebookCreateRequest None ;;
  Ret err.

Definition Read (path : string) : Prog (WorkspaceObjectStatus * error) :=
  let notebookInfo := zeroStatus in
  '(resp, err) <- performQuery http.MethodGet "/workspace/get-status" "2.0"
                               None (notebookGetStatusRequest path) None ;;
  match err with
  | Some _ => Ret (notebookInfo, err)
  | None =>
    let '(notebookInfo, err) := json_Unmarshal resp notebookInfo in
    Ret (notebookInfo, err)
  end.

Definition Export (path : string) (format : model.ExportFormat)
  : Prog (string * error) :=
  let notebookContent := zeroContent in
  '(resp, err) <- performQuery http.MethodGet "/workspace/export" "2.0"
                               None (notebookExportRequest path format) None ;;
  match err with
  | Some _ => Ret (Content notebookContent, err)
  | None =>
    let '(notebookContent, err) := json_Unmarshal resp notebookContent in
    Ret (Content notebookContent, err)
  end.

(** [defer mkdirMtx.Unlock()] runs when the function returns, that is after
    the call and before the caller gets [err]. *)
Definition Mkdirs (path : string) : Prog error :=
  mtx_Lock mkdirMtx ;;
  '(_, err) <- performQuery http.MethodPost "/workspace/mkdirs" "2.0" None
                            (mkDirsRequest path) None ;;
  mtx_Unlock mkdirMtx ;;
  Ret err.

(** Go: [list] (the name is taken by the type of lists). *)
Definition list_ (path : string) : Prog (list WorkspaceObjectStatus * error) :=
  let notebookList := zeroList in
  '(resp, err) <- performQuery http.MethodGet "/workspace/list" "2.0" None
                               (listRequest path) None ;;
  match err with
  | Some _ => Ret (Objects notebookList, err)
  | None =>
    let '(notebookList, err) := json_Unmarshal resp notebookList in
    Ret (Objects notebookList, err)
  end.

(** The [for _, v := range notebookInfoList] loop of [recursiveAddPaths];
    [rec] is the recursive call and [pathList] the slice behind the pointer.
    The loop ends in [return err] with the [err] of the [list] call, which is
    [nil] there. *)
Fixpoint rangeLoop
    (rec : string -> list WorkspaceObjectStatus ->
           Prog (list WorkspaceObjectStatus * error))
    (notebookInfoList pathList : list WorkspaceObjectStatus)
  : Prog (list WorkspaceObjectStatus * error) :=
  match notebookInfoList with
  | [] => Ret (pathList, None)
  | v :: rest =>
    if String.eqb (ObjectType v) model.Notebook then
      rangeLoop rec rest (pathList ++ [v])
    else if String.eqb (ObjectType v) model.Directory then
      '(pathList, err) <- rec (Path v) pathList ;;
      match err with
      | Some _ => Ret (pathList, err)
      | None => rangeLoop rec rest pathList
      end
    else rangeLoop rec rest pathList
  end.

(** [fuel] bounds the depth of the recursion, which Go does not bound. *)
Fixpoint recursiveAddPaths (fuel : nat) (path : string)
    (pathList : list WorkspaceObjectStatus)
  : Prog (list WorkspaceObjectStatus * error) :=
  match fuel with
  | O => OutOfFuel
  | S fuel =>
    '(notebookInfoList, err) <- list_ path ;;
    match err with
    | Some _ => Ret (pathList, err)
    | None => rangeLoop (recursiveAddPaths fuel) notebookInfoList pathList
    end
  end.

Definition List (fuel : nat) (path : string) (recursive : bool)
  : Prog (list WorkspaceObjectStatus * error) :=
  if recursive then
    let paths := [] in
    '(paths, err) <- recursiveAddPaths fuel path paths ;;
    match err with
    | Some _ => Ret ([], err)
    | None => Ret (paths, err)
    end
  else list_ path.

Definition Delete (path : string) (recursive : bool) : Prog error :=
  let notebookDelete := NotebookDeleteRequest path recursive in
  '(_, err) <- performQuery http.MethodPost "/workspace/delete" "2.0" None
                            notebookDelete None ;;
  Ret err.

End Client.

Arguments OutOfFuel {Err A}.

(** ** Sequential semantics *)

Section Semantics.

Context {Err : Type}.

(** The remote workspace, and what [a.Client.performQuery] does with one
    request on it: the response it returns and the workspace afterwards.
    Both are left open: the HTTP client is outside this file. *)
Variable World : Type.
Variable transport : Request -> World -> @Response Err * World.

(** What a run does that an observer can see. *)
Inductive Event :=
| EvQuery (req : Request) (resp : @Response Err)
| EvLock (m : Mutex)
| EvUnlock (m : Mutex).

Record State := { world : World; locked : bool }.

(** The state after a remote call that left the workspace as [w]. *)
Definition after (s : State) (w : World) : State :=
  {| world := w; locked := locked s |}.

(** How a run ends: the method returns; the recursion went deeper than the
    fuel; [Lock] finds the mutex held (a goroutine alone waits for ever);
    [Unlock] finds it free (Go: fatal error). *)
Inductive Result (A : Type) :=
| Returned (a : A)
| Diverged
| Blocked
| Fatal.

Arguments Diverged {A}.
Arguments Blocked {A}.
Arguments Fatal {A}.

Fixpoint run {A} (p : Prog A) (s : State) : Result A * list Event * State :=
  match p with
  | Ret a => (Returned a, [], s)
  | Query req k =>
    let '(resp, w) := transport req (world s) in
    let '(r, tr, s') := run (k resp) (after s w) in
    (r, EvQuery req resp :: tr, s')
  | Lock m k =>
    if locked s then (Blocked, [], s)
    else
      let '(r, tr, s') := run k {| world := world s; locked := true |} in
      (r, EvLock m :: tr, s')
  | Unlock m k =>
    if locked s then
      let '(r, tr, s') := run k {| world := world s; locked := false |} in
      (r, EvUnlock m :: tr, s')
    else (Fatal, [], s)
  | OutOfFuel => (Diverged, [], s)
  end.

(** The remote calls of a trace, in order. *)
Definition queries (tr : list Event) : list (Request * @Response Err) :=
  flat_map (fun ev => match ev with
                      | EvQuery req resp => [(req, resp)]
                      | _ => []
                      end) tr.

Definition requests (tr : list Event) : list Request := map fst (queries tr).

End Semantics.

Arguments Diverged {A}.
Arguments Blocked {A}.
Arguments Fatal {A}.
Arguments EvLock {Err}.
Arguments EvUnlock {Err}.

(** ** Errors of a call *)

Section Errors.

Context {Err : Type}.
Context {unmarshalStatus : @Unmarshaler Err WorkspaceObjectStatus}
        {unmarshalContent : @Unmarshaler Err NotebookContent}
        {unmarshalList : @Unmarshaler Err notebookListT}.

(** The error of decoding the response of a request with body [d]: the
    methods decode the responses of get-status, export and list, and no
    other. *)
Definition decode_error (d : Payload) (body : list byte) : @error Err :=
  match d with
  | notebookGetStatusRequest _ => snd (json_Unmarshal body zeroStatus)
  | notebookExportRequest _ _ => snd (json_Unmarshal body zeroContent)
  | listRequest _ => snd (json_Unmarshal body zeroList)
  | _ => None
  end.

(** The error one remote call produces: that of the HTTP call, or else that
    of decoding its response. *)
Definition call_error (q : Request * @Response Err) : @error Err :=
  match snd (snd q) with
  | Some e => Some e
  | None => decode_error (data (fst q)) (fst (snd q))
  end.

(** All the errors produced during a run, in order. *)
Definition errors_of (tr : list (@Event Err)) : list Err :=
  flat_map (fun q => match call_error q with Some e => [e] | None => [] end)
           (queries tr).

(** What [list] makes of a response. *)
Definition listResult (resp : @Response Err)
  : list WorkspaceObjectStatus * @error Err :=
  match snd resp with
  | Some e => ([], Some e)
  | None =>
    let '(l, err) := json_Unmarshal (fst resp) zeroList in (Objects l, err)
  end.

(** A run and its result agree on errors: a result without error (or no
    result for lack of fuel) comes with a trace without error; a result
    with the error [e] comes with a trace whose last event is a remote call
    that produced [e], the first call to produce an error. *)
Definition outcome_ok {A} (r : Result (A * @error Err))
    (tr : list (@Event Err)) : Prop :=
  match r with
  | Returned (_, None) => errors_of tr = []
  | Returned (_, Some e) =>
    exists tr1 req resp,
      tr = tr1 ++ [EvQuery req resp] /\ errors_of tr1 = [] /\
      call_error (req, resp) = Some e
  | Diverged => errors_of tr = []
  | Blocked => False
  | Fatal => False
  end.

(** A method that returns the error [r] after the trace [tr] has passed on
    the errors of its remote calls as they are: without error in the trace
    it returns none (or runs out of fuel); otherwise the trace has one
    error, it is the error of the last remote call, and it is what the
    method returns. *)
Definition error_unchanged (r : Result (@error Err))
    (tr : list (@Event Err)) : Prop :=
  match r with
  | Returned None => errors_of tr = []
  | Returned (Some e) =>
    errors_of tr = [e] /\
    exists qs q, queries tr = qs ++ [q] /\ call_error q = Some e
  | Diverged => errors_of tr = []
  | Blocked => False
  | Fatal => False
  end.

(** A remote call of the list endpoint. *)
Definition listQuery (ev : @Event Err) : Prop :=
  exists path resp, ev = EvQuery (listCall path) resp.

(** What a traversal that starts with [pathList] in state [s] may end in:
    its errors are as [outcome_ok] says, it leaves the mutex alone, it calls
    the list endpoint only, and it has only added notebooks to
    [pathList]. *)
Definition walk_ok {World} (pathList : list WorkspaceObjectStatus)
    (s : State World)
    (out : Result (list WorkspaceObjectStatus * @error Err) *
           list (@Event Err) * State World) : Prop :=
  let '(r, tr, s') := out in
  outcome_ok r tr /\ locked s' = locked s /\ Forall listQuery tr /\
  match r with
  | Returned (pathList', _) =>
    exists new, pathList' = pathList ++ new /\
                Forall (fun v => ObjectType v = model.Notebook) new
  | _ => True
  end.

(** The object is a notebook or a directory. *)
Definition notebookOrDirectory (v : WorkspaceObjectStatus) : bool :=
  String.eqb (ObjectType v) model.Notebook
  || String.eqb (ObjectType v) model.Directory.

(** A decoder that drops, from what [d] decodes, every object that is
    neither a notebook nor a directory. *)
Definition dropOthers (d : @Unmarshaler Err notebookListT)
  : @Unmarshaler Err notebookListT :=
  fun body v =>
    let '(l, err) := d body v in
    ({| Objects := filter notebookOrDirectory (Objects l) |}, err).

End Errors.

(** ** Remote trees *)

#[local] Unset Elimination Schemes.

(** A directory of the remote workspace: the objects its listing returns, in
    that order, each directory among them with its own tree. *)
Inductive Tree :=
| Dir (entries : list (WorkspaceObjectStatus * option Tree)).

#[local] Set Elimination Schemes.

(** Every object below the directory, depth first: a directory comes before
    what it contains. *)
Fixpoint all_objects (t : Tree) : list WorkspaceObjectStatus :=
  match t with
  | Dir es =>
    flat_map (fun e => match e with
                       | (o, None) => [o]
                       | (o, Some sub) => o :: all_objects sub
                       end) es
  end.

(** The objects below the directory that are not directories. *)
Fixpoint leaves (t : Tree) : list WorkspaceObjectStatus :=
  match t with
  | Dir es =>
    flat_map (fun e => match e with
                       | (o, None) => [o]
                       | (_, Some sub) => leaves sub
                       end) es
  end.

Definition isNotebook (v : WorkspaceObjectStatus) : bool :=
  String.eqb (ObjectType v) model.Notebook.

Definition notebooks (t : Tree) : list WorkspaceObjectStatus :=
  filter isNotebook (all_objects t).

(** The paths of the directories of the tree at [path], the root first, each
    directory before its sub-directories, siblings in listing order. *)
Fixpoint directories (path : string) (t : Tree) : list string :=
  match t with
  | Dir es =>
    path :: flat_map (fun e => match e with
                               | (_, None) => []
                               | (o, Some sub) => directories (Path o) sub
                               end) es
  end.

Fixpoint height (t : Tree) : nat :=
  match t with
  | Dir es =>
    S (fold_right (fun e h => Nat.max (match snd e with
                                       | Some sub => height sub
                                       | None => 0
                                       end) h) 0 es)
  end.

(** The height of the tree of an entry, 0 for an entry without. *)
Definition subHeight (e : WorkspaceObjectStatus * option Tree) : nat :=
  match snd e with Some sub => height sub | None => 0 end.

(** [P] holds of every entry of a listing. *)
Section EachEntry.
Variable P : WorkspaceObjectStatus -> option Tree -> Prop.
Fixpoint eachEntry (es : list (WorkspaceObjectStatus * option Tree)) : Prop :=
  match es with
  | [] => True
  | (o, sub) :: es => P o sub /\ eachEntry es
  end.
End EachEntry.

(** Every object of the tree that is not a directory is a notebook. *)
Fixpoint only_notebooks (t : Tree) : Prop :=
  match t with
  | Dir es =>
    eachEntry (fun o sub => match sub with
                            | None => ObjectType o = model.Notebook
                            | Some sub => only_notebooks sub
                            end) es
  end.

Section Serves.

Context {Err : Type}.
Context {unmarshalList : @Unmarshaler Err notebookListT}.
Variable World : Type.
Variable transport : Request -> World -> @Response Err * World.

(** The remote workspace holds the tree [t] at [path]: whatever its state, a
    list call for [path] succeeds and decodes to the objects of [t], the
    objects of type directory are those that have a tree, and the workspace
    holds that tree at the path of the object. *)
Fixpoint serves (t : Tree) (path : string) : Prop :=
  match t with
  | Dir es =>
    (forall w, exists body w',
        transport (listCall path) w = ((body, None), w') /\
        json_Unmarshal body zeroList = ({| Objects := map fst es |}, None)) /\
    eachEntry (fun o sub => match sub with
                            | None => ObjectType o <> model.Directory
                            | Some sub =>
                              ObjectType o = model.Directory /\
                              serves sub (Path o)
                            end) es
  end.

(** The entries of a listing are held as [serves] asks. *)
Definition serves_entries
    (es : list (WorkspaceObjectStatus * option Tree)) : Prop :=
  eachEntry (fun o sub => match sub with
                          | None => ObjectType o <> model.Directory
                          | Some sub =>
                            ObjectType o = model.Directory /\
                            serves sub (Path o)
                          end) es.

End Serves.

(** ** The HTTP client *)

Record HTTPResponse := { StatusCode : nat; Body : list byte }.

Section PerformQuery.

Context {Err : Type}.
Variable World : Type.

(** One HTTP exchange with the remote service. *)
Variable roundTrip : Request -> World -> HTTPResponse * World.
(** The statuses that mean success, the bodies that are well formed, and the
    remote-API error made from a response. *)
Variable successStatus : nat -> bool.
Variable wellFormed : list byte -> bool.
Variable apiError : HTTPResponse -> Err.

(** Modelled from the spec: [DBApiClient.performQuery] is in the client
    package, outside this file.  The spec says of a call that it "fails with
    a remote-API error on any non-success HTTP status or malformed body";
    otherwise it returns the body and no error. *)
Definition remotePerformQuery (req : Request) (w : World)
  : @Response Err * World :=
  let '(r, w') := roundTrip req w in
  if successStatus (StatusCode r) && wellFormed (Body r)
  then ((Body r, None), w')
  else (([], Some (apiError r)), w').

End PerformQuery.

(** ** Goroutines *)

Section Goroutines.

Context {Err : Type}.
Variable World : Type.
Variable transport : Request -> World -> @Response Err * World.

(** A goroutine runs a program, or waits for the response to the request it
    has sent. *)
Inductive Thread (A : Type) :=
| Running (p : @Prog Err A)
| InFlight (req : Request) (k : @Response Err -> @Prog Err A).

(** What one goroutine does in one step. *)
Inductive Action :=
| ActLock (m : Mutex)
| ActSend (req : Request)
| ActReceive (req : Request) (resp : @Response Err)
| ActUnlock (m : Mutex).

(** The goroutines of the process by number, the remote workspace and the
    mutex: [holder] is the goroutine whose [Lock] went through last, as long
    as the mutex is locked. *)
Record Pool (A : Type) := {
  threads : nat -> Thread A;
  remote : World;
  holder : option nat
}.

Definition setThread {A} (i : nat) (t : Thread A) (ts : nat -> Thread A)
  : nat -> Thread A :=
  fun j => if Nat.eqb j i then t else ts j.

(** One step of goroutine [i], if it can take one.  [Lock] goes through when
    the mutex is free only; [Unlock] frees a locked mutex whoever locked it,
    as Go's [sync.Mutex] does. *)
Definition pstep {A} (i : nat) (P : Pool A) : option (Action * Pool A) :=
  match threads P i with
  | Running (Lock m k) =>
    match holder P with
    | None => Some (ActLock m,
                    {| threads := setThread i (Running k) (threads P);
                       remote := remote P; holder := Some i |})
    | Some _ => None
    end
  | Running (Query req k) =>
    Some (ActSend req,
          {| threads := setThread i (InFlight req k) (threads P);
             remote := remote P; holder := holder P |})
  | InFlight req k =>
    let '(resp, w) := transport req (remote P) in
    Some (ActReceive req resp,
          {| threads := setThread i (Running (k resp)) (threads P);
             remote := w; holder := holder P |})
  | Running (Unlock m k) =>
    match holder P with
    | Some _ => Some (ActUnlock m,
                      {| threads := setThread i (Running k) (threads P);
                         remote := remote P; holder := None |})
    | None => None
    end
  | Running (Ret _) => None
  | Running OutOfFuel => None
  end.

(** The process under a schedule: the scheduler picks the goroutines one
    after the other; a goroutine that cannot step when picked stays as it
    is.  The result is what was done, by whom, in order, and the pool at the
    end. *)
Fixpoint exec {A} (schedule : list nat) (P : Pool A)
  : list (nat * Action) * Pool A :=
  match schedule with
  | [] => ([], P)
  | i :: schedule =>
    match pstep i P with
    | Some (a, P') =>
      let '(tr, P'') := exec schedule P' in ((i, a) :: tr, P'')
    | None => exec schedule P
    end
  end.

(** Every goroutine calls [Mkdirs], goroutine [i] with [paths i]. *)
Definition mkdirsPool (paths : nat -> string) (w : World)
  : Pool (@error Err) :=
  {| threads := fun i => Running (Mkdirs (paths i));
     remote := w; holder := None |}.

(** A trace is exclusive from [cur]: a [Lock] happens when nobody is inside,
    and whoever went in through [Lock] is the only one that acts until its
    [Unlock]; nothing is sent or received outside. *)
Fixpoint exclusive (cur : option nat) (tr : list (nat * Action)) : bool :=
  match tr with
  | [] => true
  | (i, a) :: tr =>
    match a, cur with
    | ActLock _, None => exclusive (Some i) tr
    | ActLock _, Some _ => false
    | ActUnlock _, Some j => Nat.eqb i j && exclusive None tr
    | ActSend _, Some j => Nat.eqb i j && exclusive cur tr
    | ActReceive _ _, Some j => Nat.eqb i j && exclusive cur tr
    | _, None => false
    end
  end.

(** Goroutine [i] is between its [Lock] and the end of its [Unlock]: it is
    about to send its request, waits for the response, or is about to
    unlock. *)
Definition inside {A} (t : Thread A) : bool :=
  match t with
  | Running (Query _ _) => true
  | InFlight _ _ => true
  | Running (Unlock _ _) => true
  | _ => false
  end.

(** The request of [Mkdirs]. *)
Definition mkdirsCall (path : string) : Request :=
  {| method := http.MethodPost; endpoint := "/workspace/mkdirs";
     apiVersion := "2.0"; headers := None; data := mkDirsRequest path;
     secretsMask := None |}.

(** [Mkdirs] once the lock is taken, and once the response is there. *)
Definition mkdirsLocked (path : string) : @Prog Err (@error Err) :=
  match Mkdirs path with
  | Lock _ k => k
  | p => p
  end.

Definition mkdirsReceive (path : string)
  : @Response Err -> @Prog Err (@error Err) :=
  match mkdirsLocked path with
  | Query _ k => k
  | _ => fun _ => OutOfFuel
  end.

(** Where a goroutine that calls [Mkdirs] can be, and whether it is between
    its [Lock] and its [Unlock] there. *)
Inductive mkdirsAt : Thread (@error Err) -> bool -> Prop :=
| atStart path : mkdirsAt (Running (Mkdirs path)) false
| atLocked path : mkdirsAt (Running (mkdirsLocked path)) true
| atInFlight path :
    mkdirsAt (InFlight (mkdirsCall path) (mkdirsReceive path)) true
| atUnlock err : mkdirsAt (Running (Unlock mkdirMtx (Ret err))) true
| atReturn err : mkdirsAt (Running (Ret err)) false.

(** Every goroutine is somewhere in [Mkdirs], and the one that holds the
    mutex is the one between [Lock] and [Unlock]. *)
Definition mkdirsInv (P : Pool (@error Err)) : Prop :=
  forall i, exists b, mkdirsAt (threads P i) b /\
                      (b = true <-> holder P = Some i).

End Goroutines.

Arguments ActLock {Err}.
Arguments ActSend {Err}.
Arguments ActUnlock {Err}.

(** ** The operations, as one type *)

Section Calls.

Context {Err : Type}.
Context {unmarshalStatus : @Unmarshaler Err WorkspaceObjectStatus}
        {unmarshalContent : @Unmarshaler Err NotebookContent}
        {unmarshalList : @Unmarshaler Err notebookListT}.

Inductive Call :=
| CallCreate (path content : string) (language : model.Language)
             (format : model.ExportFormat) (overwrite : bool)
| CallRead (path : string)
| CallExport (path : string) (format : model.ExportFormat)
| CallMkdirs (path : string)
| CallList (fuel : nat) (path : string) (recursive : bool)
| CallDelete (path : string) (recursive : bool).

(** The error value a method returns (its last result). *)
Definition errorResult {A} (p : @Prog Err (A * @error Err))
  : @Prog Err (@error Err) :=
  bind p (fun r => Ret (snd r)).

Definition invoke (c : Call) : @Prog Err (@error Err) :=
  match c with
  | CallCreate path content language format overwrite =>
    Create path content language format overwrite
  | CallRead path => errorResult (Read path)
  | CallExport path format => errorResult (Export path format)
  | CallMkdirs path => Mkdirs path
  | CallList fuel path recursive => errorResult (List fuel path recursive)
  | CallDelete path recursive => Delete path recursive
  end.

End Calls.

(** ** A small workspace to run the methods on *)

Definition demoNotebook (path : string) : WorkspaceObjectStatus :=
  {| ObjectType := model.Notebook; Path := path; Language := "PYTHON" |}.
Definition demoDirectory (path : string) : WorkspaceObjectStatus :=
  {| ObjectType := model.Directory; Path := path; Language := "" |}.
Definition demoLibrary (path : string) : WorkspaceObjectStatus :=
  {| ObjectType := "LIBRARY"; Path := path; Language := "" |}.

(** What the demo workspace lists at a path; [None] where there is no such
    directory. *)
Definition demoListing (path : string) : option (list WorkspaceObjectStatus) :=
  if String.eqb path "/" then
    Some [demoNotebook "/a"; demoDirectory "/d"; demoLibrary "/l";
          demoNotebook "/z"]
  else if String.eqb path "/d" then
    Some [demoNotebook "/d/b"; demoDirectory "/d/e"]
  else if String.eqb path "/d/e" then Some []
  else if String.eqb path "/bad" then
    Some [demoNotebook "/bad/a"; demoDirectory "/bad/missing";
          demoNotebook "/bad/c"]
  else None.

Definition pathOf (d : Payload) : string :=
  match d with
  | NotebookImportRequest _ path _ _ _ => path
  | notebookGetStatusRequest path => path
  | notebookExportRequest path _ => path
  | mkDirsRequest path => path
  | listRequest path => path
  | NotebookDeleteRequest path _ => path
  end.

(** The demo service counts the calls it gets.  A list call answers with the
    path as its body where the path is a directory; any call on a path
    under [/missing] fails. *)
Definition demoTransport (req : Request) (w : nat)
  : @Response string * nat :=
  match data req with
  | listRequest path =>
    match demoListing path with
    | Some _ => ((list_byte_of_string path, None), S w)
    | None => (([], Some "RESOURCE_DOES_NOT_EXIST"), S w)
    end
  | d =>
    if String.prefix "/missing" (pathOf d)
    then (([], Some "RESOURCE_DOES_NOT_EXIST"), S w)
    else ((list_byte_of_string "{}", None), S w)
  end.

#[local] Instance demoUnmarshalList : @Unmarshaler string notebookListT :=
  fun body v =>
    match demoListing (string_of_list_byte body) with
    | Some l => ({| Objects := l |}, None)
    | None => (v, Some "invalid character")
    end.

#[local] Instance demoUnmarshalStatus
  : @Unmarshaler string WorkspaceObjectStatus :=
  fun body v => (demoNotebook "/a", None).

#[local] Instance demoUnmarshalContent : @Unmarshaler string NotebookContent :=
  fun body v => ({| Content := "cHJpbnQoMSk=" |}, None).

Definition demoTree : Tree :=
  Dir [(demoNotebook "/d/b", None); (demoDirectory "/d/e", Some (Dir []))].

(** The whole demo workspace below [/]: it has a library among its
    objects. *)
Definition demoRoot : Tree :=
  Dir [(demoNotebook "/a", None); (demoDirectory "/d", Some demoTree);
       (demoLibrary "/l", None); (demoNotebook "/z", None)].

Definition demoStart : State nat := {| world := 0; locked := false |}.

(** An HTTP service for the demo: status 200 and an empty JSON object, or
    404 under [/missing]. *)
Definition demoRoundTrip (req : Request) (w : nat) : HTTPResponse * nat :=
  if String.prefix "/missing" (pathOf (data req))
  then ({| StatusCode := 404; Body := list_byte_of_string "not found" |}, S w)
  else ({| StatusCode := 200; Body := list_byte_of_string "{}" |}, S w).

Definition demoSuccess (code : nat) : bool :=
  Nat.leb 200 code && Nat.ltb code 300.

Definition demoWellFormed (body : list byte) : bool :=
  String.prefix "{" (string_of_list_byte body).

Definition demoApiError (r : HTTPResponse) : string :=
  string_of_list_byte (Body r).

(** A decoder that stops in the middle: it has filled in a directory when
    it reports its error. *)
Definition demoPartialList : @Unmarshaler string notebookListT :=
  fun body v =>
    ({| Objects := [demoDirectory "/d"] |},
     Some "unexpected end of JSON input").

(** The demo workspace with the mutex held. *)
Definition demoHeld : State nat := {| world := 0; locked := true |}.

(** ** What a run shows of the remote workspace *)

Section Observations.

Context {Err : Type}.
Context {unmarshalList : @Unmarshaler Err notebookListT}.

Definition isDirectory (v : WorkspaceObjectStatus) : bool :=
  String.eqb (ObjectType v) model.Directory.

(** The objects that [list] got out of the responses of a trace, call after
    call. *)
Definition listed (tr : list (@Event Err)) : list WorkspaceObjectStatus :=
  flat_map (fun q => fst (listResult (snd q))) (queries tr).

(** An event that is a remote call. *)
Definition isQuery (ev : @Event Err) : Prop :=
  exists req resp, ev = EvQuery req resp.

(** The method and the endpoint that go with a request body, as the six
    call sites of [performQuery] pair them. *)
Definition route (d : Payload) : string * string :=
  match d with
  | NotebookImportRequest _ _ _ _ _ => (http.MethodPost, "/workspace/import")
  | notebookGetStatusRequest _ => (http.MethodGet, "/workspace/get-status")
  | notebookExportRequest _ _ => (http.MethodGet, "/workspace/export")
  | mkDirsRequest _ => (http.MethodPost, "/workspace/mkdirs")
  | listRequest _ => (http.MethodGet, "/workspace/list")
  | NotebookDeleteRequest _ _ => (http.MethodPost, "/workspace/delete")
  end.

(** A request of API version 2.0, without headers or secrets mask, sent
    with the method and to the endpoint of its body. *)
Definition conforms (req : Request) : Prop :=
  apiVersion req = "2.0" /\ headers req = None /\ secretsMask req = None /\
  (method req, endpoint req) = route (data req).

(** What a successful walk that starts with [pathList] over the objects [l]
    ends in: the notebooks of [l] and of what was listed on the way have
    been added, and there was one call for each directory among them. *)
Definition walk_counts {World} (l pathList : list WorkspaceObjectStatus)
    (out : Result (list WorkspaceObjectStatus * @error Err) *
           list (@Event Err) * State World) : Prop :=
  forall pathList' tr s',
    out = (Returned (pathList', None), tr, s') ->
    Permutation pathList'
      (pathList ++ filter isNotebook l ++ filter isNotebook (listed tr)) /\
    Datatypes.length (queries tr) =
    Datatypes.length (filter isDirectory l) +
    Datatypes.length (filter isDirectory (listed tr)).

End Observations.

(** ** Goroutines and their paths *)

Section GoroutinePaths.

Context {Err : Type}.

(** Where a goroutine that calls [Mkdirs path] can be. *)
Inductive mkdirsOn (path : string) : @Thread Err (@error Err) -> Prop :=
| onStart : mkdirsOn path (Running (Mkdirs path))
| onLocked : mkdirsOn path (Running (mkdirsLocked path))
| onInFlight : mkdirsOn path (InFlight (mkdirsCall path) (mkdirsReceive path))
| onUnlock err : mkdirsOn path (Running (Unlock mkdirMtx (Ret err)))
| onReturn err : mkdirsOn path (Running (Ret err)).

(** What goroutine [i] did in a trace, in order. *)
Definition actionsOf (i : nat) (tr : list (nat * @Action Err))
  : list (@Action Err) :=
  map snd (filter (fun x => Nat.eqb (fst x) i) tr).

(** The request that an action sends, if it sends one, and the requests a
    goroutine sent. *)
Definition sentBy (a : @Action Err) : list Request :=
  match a with
  | ActSend req => [req]
  | _ => []
  end.

Definition sent (acts : list (@Action Err)) : list Request :=
  flat_map sentBy acts.

(** The goroutine has not sent its request yet: it is about to lock or
    about to send. *)
Definition beforeSend {A} (t : @Thread Err A) : bool :=
  match t with
  | Running (Lock _ _) => true
  | Running (Query _ _) => true
  | _ => false
  end.

(** Where a goroutine that calls [Mkdirs path] stands, with what it has done
    to get there. *)
Inductive mkdirsDid (path : string)
  : @Thread Err (@error Err) -> list (@Action Err) -> Prop :=
| didNothing : mkdirsDid path (Running (Mkdirs path)) []
| didLock : mkdirsDid path (Running (mkdirsLocked path)) [ActLock mkdirMtx]
| didSend :
    mkdirsDid path (InFlight (mkdirsCall path) (mkdirsReceive path))
              [ActLock mkdirMtx; ActSend (mkdirsCall path)]
| didReceive resp :
    mkdirsDid path (Running (Unlock mkdirMtx (Ret (snd resp))))
              [ActLock mkdirMtx; ActSend (mkdirsCall path);
               ActReceive (mkdirsCall path) resp]
| didUnlock resp :
    mkdirsDid path (Running (Ret (snd resp)))
              [ActLock mkdirMtx; ActSend (mkdirsCall path);
               ActReceive (mkdirsCall path) resp; ActUnlock mkdirMtx].

(** Every goroutine [i] stands in [Mkdirs (paths i)] where [hist i] has
    brought it. *)
Definition mkdirsHist {World} (paths : nat -> string)
    (P : Pool World (@error Err)) (hist : nat -> list (@Action Err)) : Prop :=
  forall i, mkdirsDid (paths i) (threads P i) (hist i).

End GoroutinePaths.

(** * Proofs *)

Section Proofs.

Context {Err : Type}.
Context {unmarshalStatus : @Unmarshaler Err WorkspaceObjectStatus}
        {unmarshalContent : @Unmarshaler Err NotebookContent}
        {unmarshalList : @Unmarshaler Err notebookListT}.
Variable World : Type.
Variable transport : Request -> World -> @Response Err * World.


(** ** The equations of [run] on the methods *)

Lemma run_bind {A B} (p : Prog A) (f : A -> Prog B) (s : State World) :
  run transport (bind p f) s =
  let '(r, tr, s') := run transport p s in
  match r with
  | Returned a =>
    let '(r', tr', s'') := run transport (f a) s' in (r', tr ++ tr', s'')
  | Diverged => (Diverged, tr, s')
  | Blocked => (Blocked, tr, s')
  | Fatal => (Fatal, tr, s')
  end.
Proof.
  revert s. induction p as [a | req k IH | m k IH | m k IH |]; intros s; cbn.
  - destruct (run transport (f a) s) as [[r tr] s']. reflexivity.
  - destruct (transport req (world s)) as [resp w]. rewrite IH.
    destruct (run transport (k resp) _) as [[r tr] s'].
    destruct r; try reflexivity.
    destruct (run transport (f a) s') as [[r' tr'] s'']. reflexivity.
  - destruct (locked s); [reflexivity |]. rewrite IH.
    destruct (run transport k _) as [[r tr] s'].
    destruct r; try reflexivity.
    destruct (run transport (f a) s') as [[r' tr'] s'']. reflexivity.
  - destruct (locked s); [| reflexivity]. rewrite IH.
    destruct (run transport k _) as [[r tr] s'].
    destruct r; try reflexivity.
    destruct (run transport (f a) s') as [[r' tr'] s'']. reflexivity.
  - reflexivity.
Qed.

Lemma run_list_ (path : string) (s : State World) :
  run transport (list_ path) s =
  let '(resp, w) := transport (listCall path) (world s) in
  (Returned (listResult resp), [EvQuery (listCall path) resp], after s w).
Proof.
  unfold list_, performQuery, listResult, listCall. cbn.
  destruct (transport _ (world s)) as [[body err] w]. cbn.
  destruct err as [e |]; cbn; [reflexivity |].
  destruct (json_Unmarshal body zeroList) as [l err]. reflexivity.
Qed.

Lemma run_rangeLoop_cons rec (v : WorkspaceObjectStatus)
      (rest pathList : list WorkspaceObjectStatus)
      (s : State World) :
  run transport (rangeLoop rec (v :: rest) pathList) s =
  if String.eqb (ObjectType v) model.Notebook then
    run transport (rangeLoop rec rest (pathList ++ [v])) s
  else if String.eqb (ObjectType v) model.Directory then
    let '(r, tr, s') := run transport (rec (Path v) pathList) s in
    match r with
    | Returned (pathList', None) =>
      let '(r', tr', s'') := run transport (rangeLoop rec rest pathList') s' in
      (r', tr ++ tr', s'')
    | Returned (pathList', Some e) => (Returned (pathList', Some e), tr, s')
    | Diverged => (Diverged, tr, s')
    | Blocked => (Blocked, tr, s')
    | Fatal => (Fatal, tr, s')
    end
  else run transport (rangeLoop rec rest pathList) s.
Proof.
  cbn [rangeLoop].
  destruct (String.eqb (ObjectType v) model.Notebook); [reflexivity |].
  destruct (String.eqb (ObjectType v) model.Directory); [| reflexivity].
  rewrite run_bind.
  destruct (run transport (rec (Path v) pathList) s) as [[r tr] s'].
  destruct r as [[pathList' [e |]] | | |]; cbn; try reflexivity.
  rewrite app_nil_r. reflexivity.
Qed.

Lemma run_recursiveAddPaths_S (fuel : nat) (path : string)
      (pathList : list WorkspaceObjectStatus) (s : State World) :
  run transport (recursiveAddPaths (S fuel) path pathList) s =
  let '(resp, w) := transport (listCall path) (world s) in
  match listResult resp with
  | (_, Some e) =>
    (Returned (pathList, Some e), [EvQuery (listCall path) resp], after s w)
  | (notebookInfoList, None) =>
    let '(r, tr, s') :=
      run transport
          (rangeLoop (recursiveAddPaths fuel) notebookInfoList pathList)
          (after s w) in
    (r, EvQuery (listCall path) resp :: tr, s')
  end.
Proof.
  cbn [recursiveAddPaths]. rewrite run_bind, run_list_.
  destruct (transport (listCall path) (world s)) as [resp w].
  destruct (listResult resp) as [l [e |]]; cbn; [reflexivity |].
  destruct (run transport (rangeLoop _ l pathList) _) as [[r tr] s'].
  reflexivity.
Qed.

Lemma run_List_recursive (fuel : nat) (path : string) (s : State World) :
  run transport (List fuel path true) s =
  let '(r, tr, s') := run transport (recursiveAddPaths fuel path []) s in
  match r with
  | Returned (paths, None) => (Returned (paths, None), tr, s')
  | Returned (_, Some e) => (Returned ([], Some e), tr, s')
  | Diverged => (Diverged, tr, s')
  | Blocked => (Blocked, tr, s')
  | Fatal => (Fatal, tr, s')
  end.
Proof.
  unfold List. rewrite run_bind.
  destruct (run transport (recursiveAddPaths fuel path []) s)
    as [[r tr] s'].
  destruct r as [[paths [e |]] | | |]; cbn; try reflexivity;
    rewrite app_nil_r; reflexivity.
Qed.

(** ** Errors and traces *)

Lemma queries_app (tr1 tr2 : list (@Event Err)) :
  queries (tr1 ++ tr2) = queries tr1 ++ queries tr2.
Proof. unfold queries. apply flat_map_app. Qed.

Lemma errors_of_app (tr1 tr2 : list (@Event Err)) :
  errors_of (tr1 ++ tr2) = errors_of tr1 ++ errors_of tr2.
Proof. unfold errors_of. rewrite queries_app. apply flat_map_app. Qed.

Lemma errors_of_query req resp :
  errors_of [EvQuery req resp] =
  match call_error (req, resp) with Some e => [e] | None => [] end.
Proof. unfold errors_of. cbn. apply app_nil_r. Qed.

Lemma call_error_list (path : string) (resp : @Response Err) :
  call_error (listCall path, resp) = snd (listResult resp).
Proof.
  unfold call_error, listResult. destruct resp as [body [e |]]; cbn.
  - reflexivity.
  - destruct (json_Unmarshal body zeroList) as [l err]. reflexivity.
Qed.

Lemma outcome_ok_app {A} (r : Result (A * @error Err)) tr1 tr2 :
  errors_of tr1 = [] -> outcome_ok r tr2 -> outcome_ok r (tr1 ++ tr2).
Proof.
  intros H1 H2. destruct r as [[a [e |]] | | |]; cbn in *;
    try (rewrite errors_of_app, H1, H2; reflexivity); try contradiction.
  destruct H2 as (tr & req & resp & -> & Hc & He).
  exists (tr1 ++ tr), req, resp. rewrite app_assoc. repeat split; trivial.
  rewrite errors_of_app, H1, Hc. reflexivity.
Qed.

(** ** The traversal *)

Lemma walk_ok_rangeLoop rec :
  (forall path pathList s,
      walk_ok pathList s (run transport (rec path pathList) s)) ->
  forall l pathList s,
    walk_ok pathList s (run transport (rangeLoop rec l pathList) s).
Proof.
  intros Hrec. induction l as [| v rest IH]; intros pathList s.
  - cbn. repeat split; trivial. exists []. rewrite app_nil_r.
    split; constructor.
  - rewrite run_rangeLoop_cons.
    destruct (String.eqb (ObjectType v) model.Notebook) eqn:Hn.
    + specialize (IH (pathList ++ [v]) s). unfold walk_ok in *.
      destruct (run transport _ s) as [[r tr] s'].
      destruct IH as (H1 & H2 & H3 & H4). repeat split; trivial.
      destruct r as [[pathList' err] | | |]; trivial.
      destruct H4 as (new & -> & Hnew). exists (v :: new).
      rewrite <- app_assoc. split; [reflexivity |].
      constructor; [apply String.eqb_eq, Hn | exact Hnew].
    + destruct (String.eqb (ObjectType v) model.Directory) eqn:Hd; [| apply IH].
      specialize (Hrec (Path v) pathList s). unfold walk_ok in *.
      destruct (run transport (rec (Path v) pathList) s) as [[r tr] s1].
      destruct Hrec as (H1 & H2 & H3 & H4).
      destruct r as [[pathList' [e |]] | | |];
        try (repeat split; trivial; fail).
      specialize (IH pathList' s1).
      destruct (run transport (rangeLoop rec rest pathList') s1)
        as [[r' tr'] s2].
      destruct IH as (G1 & G2 & G3 & G4). repeat split.
      * apply outcome_ok_app; assumption.
      * congruence.
      * apply Forall_app. split; assumption.
      * destruct r' as [[pathList'' err] | | |]; trivial.
        destruct H4 as (new & -> & Hnew). destruct G4 as (new' & -> & Hnew').
        exists (new ++ new'). rewrite app_assoc. split; [reflexivity |].
        apply Forall_app. split; assumption.
Qed.

Lemma walk_ok_recursiveAddPaths (fuel : nat) :
  forall path pathList s,
    walk_ok pathList s (run transport (recursiveAddPaths fuel path pathList) s).
Proof.
  induction fuel as [| fuel IH]; intros path pathList s.
  - cbn. repeat split; trivial.
  - rewrite run_recursiveAddPaths_S.
    destruct (transport (listCall path) (world s)) as [resp w] eqn:Ht.
    pose proof (call_error_list path resp) as Hc.
    destruct (listResult resp) as [l [e |]]; cbn in Hc.
    + cbn. repeat split.
      * exists [], (listCall path), resp. repeat split; trivial.
      * constructor; [| constructor]. exists path, resp. reflexivity.
      * exists []. rewrite app_nil_r. split; constructor.
    + pose proof (walk_ok_rangeLoop _ IH l pathList (after s w)) as Hl.
      unfold walk_ok in *.
      destruct (run transport (rangeLoop _ l pathList) (after s w))
        as [[r tr] s'].
      destruct Hl as (H1 & H2 & H3 & H4). repeat split; trivial.
      * change (EvQuery (listCall path) resp :: tr)
          with ([EvQuery (listCall path) resp] ++ tr).
        apply outcome_ok_app; [| exact H1].
        rewrite errors_of_query, Hc. reflexivity.
      * constructor; [| exact H3]. exists path, resp. reflexivity.
Qed.


(** ** The traversal of a remote tree *)

Lemma requests_app (tr1 tr2 : list (@Event Err)) :
  requests (tr1 ++ tr2) = requests tr1 ++ requests tr2.
Proof. unfold requests. rewrite queries_app. apply map_app. Qed.

Lemma height_Dir es :
  height (Dir es) = S (fold_right (fun e h => Nat.max (subHeight e) h) 0 es).
Proof. reflexivity. Qed.

Lemma directory_not_notebook (o : WorkspaceObjectStatus) :
  ObjectType o = model.Directory ->
  String.eqb (ObjectType o) model.Notebook = false /\
  String.eqb (ObjectType o) model.Directory = true.
Proof. intros ->. split; reflexivity. Qed.

Lemma notebooks_cons_dir o sub es :
  ObjectType o = model.Directory ->
  notebooks (Dir ((o, Some sub) :: es)) = notebooks sub ++ notebooks (Dir es).
Proof.
  intros Hd. unfold notebooks. cbn [all_objects flat_map].
  change (filter isNotebook (o :: all_objects sub ++ all_objects (Dir es)) =
          filter isNotebook (all_objects sub) ++
          filter isNotebook (all_objects (Dir es))).
  cbn [filter]. unfold isNotebook at 1.
  destruct (directory_not_notebook o Hd) as [-> _]. apply filter_app.
Qed.

Lemma notebooks_cons_leaf o es :
  notebooks (Dir ((o, None) :: es)) =
  (if isNotebook o then [o] else []) ++ notebooks (Dir es).
Proof.
  unfold notebooks. cbn [all_objects flat_map].
  change (filter isNotebook (o :: all_objects (Dir es)) =
          (if isNotebook o then [o] else []) ++
          filter isNotebook (all_objects (Dir es))).
  cbn [filter]. destruct (isNotebook o); reflexivity.
Qed.

Lemma directories_cons_dir path o sub es :
  tl (directories path (Dir ((o, Some sub) :: es))) =
  directories (Path o) sub ++ tl (directories path (Dir es)).
Proof. reflexivity. Qed.

Lemma walk_entries (fuel : nat) :
  (forall t path pathList s,
      serves transport t path -> height t <= fuel ->
      exists tr s',
        run transport (recursiveAddPaths fuel path pathList) s =
        (Returned (pathList ++ notebooks t, None), tr, s') /\
        requests tr = map listCall (directories path t)) ->
  forall es pathList s,
    serves_entries transport es ->
    fold_right (fun e h => Nat.max (subHeight e) h) 0 es <= fuel ->
    exists tr s',
      run transport
          (rangeLoop (recursiveAddPaths fuel) (map fst es) pathList) s =
      (Returned (pathList ++ notebooks (Dir es), None), tr, s') /\
      requests tr = map listCall (tl (directories "" (Dir es))).
Proof.
  intros IH. induction es as [| [o [sub |]] es IHes]; intros pathList s Hs Hh.
  - exists [], s. cbn. rewrite app_nil_r. split; reflexivity.
  - cbn [map fst]. rewrite run_rangeLoop_cons.
    destruct Hs as [[Hd Hsub] Hs]. cbn [fold_right subHeight snd] in Hh.
    rewrite notebooks_cons_dir by exact Hd. rewrite directories_cons_dir.
    destruct (directory_not_notebook o Hd) as [-> ->].
    destruct (IH sub (Path o) pathList s Hsub ltac:(lia))
      as (tr & s1 & Hrun & Hr).
    rewrite Hrun.
    destruct (IHes (pathList ++ notebooks sub) s1 Hs ltac:(lia))
      as (tr' & s2 & Hrun' & Hr').
    rewrite Hrun'.
    exists (tr ++ tr'), s2. split.
    + rewrite app_assoc. reflexivity.
    + rewrite requests_app, Hr, Hr', map_app. reflexivity.
  - cbn [map fst]. rewrite run_rangeLoop_cons.
    destruct Hs as [Hd Hs]. cbn [fold_right subHeight snd] in Hh.
    rewrite notebooks_cons_leaf. unfold isNotebook.
    destruct (String.eqb (ObjectType o) model.Notebook) eqn:Hn.
    + destruct (IHes (pathList ++ [o]) s Hs ltac:(lia))
        as (tr & s1 & Hrun & Hr).
      rewrite Hrun. exists tr, s1. rewrite <- app_assoc.
      split; [reflexivity | exact Hr].
    + assert (String.eqb (ObjectType o) model.Directory = false) as ->
          by (apply String.eqb_neq; exact Hd).
      destruct (IHes pathList s Hs ltac:(lia)) as (tr & s1 & Hrun & Hr).
      rewrite Hrun. exists tr, s1. split; [reflexivity | exact Hr].
Qed.

Lemma walk_tree (fuel : nat) :
  forall t path pathList s,
    serves transport t path -> height t <= fuel ->
    exists tr s',
      run transport (recursiveAddPaths fuel path pathList) s =
      (Returned (pathList ++ notebooks t, None), tr, s') /\
      requests tr = map listCall (directories path t).
Proof.
  induction fuel as [| fuel IH]; intros [es] path pathList s Hs Hh.
  - rewrite height_Dir in Hh. lia.
  - rewrite height_Dir in Hh. destruct Hs as [Hl Hs].
    destruct (Hl (world s)) as (body & w & Ht & Hj).
    rewrite run_recursiveAddPaths_S, Ht.
    unfold listResult. cbn [fst snd]. rewrite Hj. cbn [Objects].
    destruct (walk_entries IH es pathList (after s w) Hs ltac:(lia))
      as (tr & s' & -> & Hr).
    exists (EvQuery (listCall path) (body, None) :: tr), s'.
    split; [reflexivity |].
    change (EvQuery (listCall path) (body, None) :: tr)
      with ([EvQuery (listCall path) (body, None)] ++ tr).
    rewrite requests_app, Hr. reflexivity.
Qed.


Lemma notebooks_not_directory (t : Tree) :
  Forall (fun v => ObjectType v = model.Notebook /\
                   ObjectType v <> model.Directory) (notebooks t).
Proof.
  unfold notebooks. apply Forall_forall. intros v Hv.
  apply filter_In in Hv. destruct Hv as [_ Hv].
  apply String.eqb_eq in Hv. split; [exact Hv |].
  rewrite Hv. discriminate.
Qed.

Lemma leaves_cons_dir o sub es :
  leaves (Dir ((o, Some sub) :: es)) = leaves sub ++ leaves (Dir es).
Proof. reflexivity. Qed.

Lemma leaves_cons_leaf o es :
  leaves (Dir ((o, None) :: es)) = o :: leaves (Dir es).
Proof. reflexivity. Qed.

(** In a tree that the workspace holds and that has only notebooks besides
    directories, the notebooks are all the objects that are not
    directories. *)
Lemma notebooks_leaves (n : nat) :
  forall t path,
    height t <= n -> serves transport t path -> only_notebooks t ->
    notebooks t = leaves t.
Proof.
  induction n as [| n IH]; intros [es] path Hh Hs Ho;
    rewrite height_Dir in Hh; [lia |].
  destruct Hs as [_ Hs]. cbn [only_notebooks] in Ho.
  assert (Hh' : fold_right (fun e h => Nat.max (subHeight e) h) 0 es <= n)
    by lia.
  clear Hh. revert Hs Ho Hh'.
  induction es as [| [o [sub |]] es IHes]; intros Hs Ho Hh.
  - reflexivity.
  - destruct Hs as [[Hd Hsub] Hs]. destruct Ho as [Hosub Ho].
    cbn [fold_right subHeight snd] in Hh.
    rewrite notebooks_cons_dir by exact Hd. rewrite leaves_cons_dir.
    rewrite (IH sub (Path o)) by (trivial; lia).
    rewrite IHes by (trivial; lia). reflexivity.
  - destruct Hs as [Hd Hs]. destruct Ho as [Hnb Ho].
    cbn [fold_right subHeight snd] in Hh.
    rewrite notebooks_cons_leaf, leaves_cons_leaf.
    rewrite IHes by (trivial; lia).
    unfold isNotebook. rewrite Hnb. reflexivity.
Qed.

Lemma List_tree (fuel : nat) (t : Tree) (path : string) (s : State World) :
  serves transport t path -> height t <= fuel ->
  exists tr s',
    run transport (List fuel path true) s =
    (Returned (notebooks t, None), tr, s') /\
    requests tr = map listCall (directories path t) /\
    Forall listQuery tr.
Proof.
  intros Hs Hh. rewrite run_List_recursive.
  pose proof (walk_ok_recursiveAddPaths fuel path [] s) as Hw.
  destruct (walk_tree t path [] s Hs Hh) as (tr & s' & Hrun & Hr).
  rewrite Hrun in *. exists tr, s'. repeat split; trivial. apply Hw.
Qed.

Lemma last_error (tr1 tr2 tr : list (@Event Err)) req resp ev e :
  tr1 ++ EvQuery req resp :: tr2 = tr ++ [ev] ->
  errors_of tr = [] -> call_error (req, resp) = Some e ->
  tr2 = [] /\ ev = EvQuery req resp.
Proof.
  intros Heq Hclean He.
  destruct (exists_last (l := EvQuery req resp :: tr2)) as (l & x & Hl);
    [discriminate |].
  rewrite Hl, app_assoc in Heq. apply app_inj_tail in Heq.
  destruct Heq as [<- <-].
  destruct tr2 as [| y tr2].
  - destruct l as [| z l].
    + cbn in Hl. injection Hl as <-. split; reflexivity.
    + cbn in Hl. injection Hl as _ Hl. destruct l; discriminate Hl.
  - exfalso. destruct l as [| z l].
    + discriminate Hl.
    + cbn in Hl. injection Hl as <- _.
      rewrite errors_of_app in Hclean. apply app_eq_nil in Hclean.
      destruct Hclean as [_ Hclean].
      change (EvQuery req resp :: l) with ([EvQuery req resp] ++ l) in Hclean.
      rewrite errors_of_app, errors_of_query, He in Hclean. discriminate.
Qed.


(** ** Errors of the methods *)

Lemma outcome_ok_error_unchanged {A} (r : Result (A * @error Err))
      (tr : list (@Event Err)) :
  outcome_ok r tr ->
  error_unchanged
    match r with
    | Returned a => Returned (snd a)
    | Diverged => Diverged
    | Blocked => Blocked
    | Fatal => Fatal
    end tr.
Proof.
  destruct r as [[a [e |]] | | |]; cbn; trivial.
  intros (tr1 & req & resp & -> & Hclean & He). split.
  - rewrite errors_of_app, Hclean, errors_of_query, He. reflexivity.
  - exists (queries tr1), (req, resp). rewrite queries_app. split; trivial.
Qed.

Lemma error_unchanged_single req (resp : @Response Err) :
  error_unchanged (Returned (call_error (req, resp))) [EvQuery req resp].
Proof.
  unfold error_unchanged. destruct (call_error (req, resp)) as [e |] eqn:He.
  - split; [rewrite errors_of_query, He; reflexivity |].
    exists [], (req, resp). split; trivial.
  - rewrite errors_of_query, He. reflexivity.
Qed.

Lemma run_errorResult {A} (p : Prog (A * @error Err)) (s : State World) :
  run transport (errorResult p) s =
  let '(r, tr, s') := run transport p s in
  (match r with
   | Returned a => Returned (snd a)
   | Diverged => Diverged
   | Blocked => Blocked
   | Fatal => Fatal
   end, tr, s').
Proof.
  unfold errorResult. rewrite run_bind.
  destruct (run transport p s) as [[r tr] s'].
  destruct r; cbn; try reflexivity. rewrite app_nil_r. reflexivity.
Qed.

Lemma run_Create (path content : string) (language : model.Language)
      (format : model.ExportFormat) (overwrite : bool) (s : State World) :
  let req := {| method := http.MethodPost; endpoint := "/workspace/import";
                apiVersion := "2.0"; headers := None;
                data := NotebookImportRequest content path language format
                                              overwrite;
                secretsMask := None |} in
  run transport (Create path content language format overwrite) s =
  (Returned (snd (fst (transport req (world s)))),
   [EvQuery req (fst (transport req (world s)))],
   after s (snd (transport req (world s)))).
Proof.
  unfold Create, performQuery. cbn.
  destruct (transport _ (world s)) as [[body err] w]. reflexivity.
Qed.

(** ** Goroutines in [Mkdirs] *)

Lemma mkdirsAt_inside (t : Thread (@error Err)) (b : bool) :
  mkdirsAt t b -> inside t = b.
Proof. intros H. destruct H; reflexivity. Qed.

Lemma mkdirsInv_inside (P : Pool World (@error Err)) :
  mkdirsInv P ->
  forall i j, inside (threads P i) = true -> inside (threads P j) = true ->
              i = j.
Proof.
  intros Hinv i j Hi Hj.
  destruct (Hinv i) as (bi & Hai & Hbi). destruct (Hinv j) as (bj & Haj & Hbj).
  apply mkdirsAt_inside in Hai, Haj.
  assert (holder P = Some i) by (apply Hbi; congruence).
  assert (holder P = Some j) by (apply Hbj; congruence).
  congruence.
Qed.

Lemma mkdirsPool_inv (paths : nat -> string) (w : World) :
  mkdirsInv (mkdirsPool paths w : Pool World (@error Err)).
Proof.
  intros i. exists false. split; [apply atStart |].
  split; discriminate.
Qed.

Lemma setThread_same {A} i (t : @Thread Err A) ts :
  setThread i t ts i = t.
Proof. unfold setThread. rewrite Nat.eqb_refl. reflexivity. Qed.

Lemma setThread_other {A} i j (t : @Thread Err A) ts :
  j <> i -> setThread i t ts j = ts j.
Proof.
  intros H. unfold setThread. apply Nat.eqb_neq in H. rewrite H. reflexivity.
Qed.

(** One step of a goroutine keeps the invariant, and what it does is allowed
    by [exclusive] from the holder before to the holder after. *)
Lemma pstep_mkdirsInv (i : nat) (P P' : Pool World (@error Err)) (a : Action) :
  mkdirsInv P -> pstep transport i P = Some (a, P') ->
  mkdirsInv P' /\
  forall tr, exclusive (holder P') tr = true ->
             exclusive (holder P) ((i, a) :: tr) = true.
Proof.
  intros Hinv Hstep. unfold pstep in Hstep.
  destruct (Hinv i) as (b & Hat & Hb).
  assert (Hothers : forall h' t', (forall j, j <> i -> h' <> Some j) ->
            (exists b', mkdirsAt t' b' /\ (b' = true <-> h' = Some i)) ->
            (forall j, j <> i -> holder P <> Some j) ->
            mkdirsInv {| threads := setThread i t' (threads P);
                         remote := remote P; holder := h' |}).
  { intros h' t' Hh' Ht' Hh j. cbn. destruct (Nat.eq_dec j i) as [-> | Hne].
    - rewrite setThread_same. exact Ht'.
    - rewrite setThread_other by exact Hne.
      destruct (Hinv j) as (bj & Haj & Hbj). exists bj. split; [exact Haj |].
      split; intros H.
      + apply Hbj in H. exfalso. apply (Hh j Hne H).
      + exfalso. apply (Hh' j Hne H). }
  inversion Hat as [path Ht | path Ht | path Ht | err Ht | err Ht]; subst b;
    rewrite <- Ht in Hstep; cbn -[mkdirsReceive] in Hstep.
  - destruct (holder P) as [h |] eqn:Hh; [discriminate |].
    injection Hstep as <- <-. cbn [holder]. split.
    + apply Hothers.
      * intros j Hne H. injection H as ->. apply Hne. reflexivity.
      * exists true. split; [apply (atLocked path) | tauto].
      * intros j _. discriminate.
    + intros tr Htr. cbn. exact Htr.
  - assert (Hh : holder P = Some i) by (apply Hb; reflexivity).
    injection Hstep as <- <-. cbn [holder]. split.
    + intros j. cbn. destruct (Nat.eq_dec j i) as [-> | Hne].
      * rewrite setThread_same. exists true.
        split; [apply (atInFlight path) | tauto].
      * rewrite setThread_other by exact Hne. apply Hinv.
    + intros tr Htr. cbn. rewrite Hh in *. rewrite Nat.eqb_refl. exact Htr.
  - assert (Hh : holder P = Some i) by (apply Hb; reflexivity).
    destruct (transport (mkdirsCall path) (remote P)) as [[body err] w'].
    injection Hstep as <- <-. cbn [holder]. split.
    + intros j. cbn. destruct (Nat.eq_dec j i) as [-> | Hne].
      * rewrite setThread_same. exists true.
        split; [apply atUnlock | tauto].
      * rewrite setThread_other by exact Hne. apply Hinv.
    + intros tr Htr. cbn. rewrite Hh in *. rewrite Nat.eqb_refl. exact Htr.
  - assert (Hh : holder P = Some i) by (apply Hb; reflexivity).
    rewrite Hh in Hstep. injection Hstep as <- <-. cbn [holder]. split.
    + apply Hothers.
      * intros j _. discriminate.
      * exists false. split; [apply atReturn |]. split; discriminate.
      * intros j Hne H. rewrite Hh in H. injection H as ->.
        apply Hne. reflexivity.
    + intros tr Htr. cbn. rewrite Hh. rewrite Nat.eqb_refl. exact Htr.
  - discriminate.
Qed.

Lemma exec_mkdirsInv (schedule : list nat) :
  forall P : Pool World (@error Err),
    mkdirsInv P ->
    exclusive (holder P) (fst (exec transport schedule P)) = true /\
    mkdirsInv (snd (exec transport schedule P)).
Proof.
  induction schedule as [| i schedule IH]; intros P Hinv.
  - split; [reflexivity | exact Hinv].
  - cbn [exec]. destruct (pstep transport i P) as [[a P'] |] eqn:Hstep.
    + destruct (pstep_mkdirsInv i Hinv Hstep) as [Hinv' Hex].
      destruct (IH P' Hinv') as [Htr Hend].
      destruct (exec transport schedule P') as [tr P''].
      cbn [fst snd] in *. split; [apply Hex, Htr | exact Hend].
    + apply IH, Hinv.
Qed.


Lemma holder_can_step (P : Pool World (@error Err)) (j : nat) :
  mkdirsAt (threads P j) true -> holder P = Some j ->
  pstep transport j P <> None.
Proof.
  intros Hat Hh.
  inversion Hat as [path Ht | path Ht | path Ht | err Ht | err Ht];
    unfold pstep; rewrite <- Ht; cbn -[mkdirsReceive].
  - discriminate.
  - destruct (transport (mkdirsCall path) (remote P)) as [resp w].
    discriminate.
  - rewrite Hh. discriminate.
Qed.

Lemma actionsOf_step (i j : nat) (a : @Action Err) tr :
  actionsOf j ((i, a) :: tr) =
  if Nat.eqb j i then a :: actionsOf j tr else actionsOf j tr.
Proof.
  unfold actionsOf. cbn [filter fst]. rewrite (Nat.eqb_sym j i).
  destruct (Nat.eqb i j); reflexivity.
Qed.

(** One step of goroutine [i] adds what it does to the history of [i]. *)
Lemma pstep_mkdirsHist (paths : nat -> string) (i : nat)
      (P P' : Pool World (@error Err)) (a : Action) hist :
  mkdirsHist paths P hist -> pstep transport i P = Some (a, P') ->
  mkdirsHist paths P'
             (fun j => if Nat.eqb j i then hist j ++ [a] else hist j).
Proof.
  intros Hinv Hstep. unfold pstep in Hstep.
  assert (Hupd : forall t' (w' : World) h',
            mkdirsDid (paths i) t' (hist i ++ [a]) ->
            mkdirsHist paths
              {| threads := setThread i t' (threads P);
                 remote := w'; holder := h' |}
              (fun j => if Nat.eqb j i then hist j ++ [a] else hist j)).
  { intros t' w' h' Ht' j. cbn. destruct (Nat.eq_dec j i) as [-> | Hne].
    - rewrite setThread_same, Nat.eqb_refl. exact Ht'.
    - rewrite setThread_other by exact Hne.
      apply Nat.eqb_neq in Hne. rewrite Hne. apply Hinv. }
  pose proof (Hinv i) as Hi.
  inversion Hi as [Ht Hh | Ht Hh | Ht Hh | resp Ht Hh | resp Ht Hh];
    rewrite <- Ht in Hstep; cbn -[mkdirsReceive] in Hstep.
  - destruct (holder P); [discriminate |]. injection Hstep as <- <-.
    apply Hupd. rewrite <- Hh. apply didLock.
  - injection Hstep as <- <-. apply Hupd. rewrite <- Hh. apply didSend.
  - destruct (transport (mkdirsCall (paths i)) (remote P))
      as [[body err] w'].
    injection Hstep as <- <-. apply Hupd. rewrite <- Hh.
    apply (didReceive (paths i) (body, err)).
  - destruct (holder P); [| discriminate]. injection Hstep as <- <-.
    apply Hupd. rewrite <- Hh. apply didUnlock.
  - discriminate.
Qed.

Lemma exec_mkdirsHist (paths : nat -> string) (schedule : list nat) :
  forall (P : Pool World (@error Err)) hist,
    mkdirsHist paths P hist ->
    mkdirsHist paths (snd (exec transport schedule P))
               (fun j =>
                  hist j ++ actionsOf j (fst (exec transport schedule P))).
Proof.
  induction schedule as [| i schedule IH]; intros P hist Hinv.
  - intros j. cbn. rewrite app_nil_r. apply Hinv.
  - cbn [exec]. destruct (pstep transport i P) as [[a P'] |] eqn:Hstep;
      [| apply IH, Hinv].
    pose proof (IH P' _ (@pstep_mkdirsHist paths i P P' a hist Hinv Hstep))
      as H.
    destruct (exec transport schedule P') as [tr P''].
    cbn [fst snd] in *. intros j. specialize (H j). cbn beta in H.
    rewrite actionsOf_step.
    destruct (Nat.eqb j i); [| exact H].
    rewrite <- app_assoc in H. exact H.
Qed.

Lemma mkdirsPool_hist (paths : nat -> string) (w : World) :
  mkdirsHist paths (mkdirsPool paths w : Pool World (@error Err))
             (fun _ => []).
Proof. intros i. apply didNothing. Qed.

(** What a goroutine in [Mkdirs] has done is the beginning of: lock, send
    the request, receive a response, unlock. *)
Lemma mkdirsDid_prefix (path : string) t (acts : list (@Action Err)) :
  mkdirsDid path t acts ->
  exists resp rest,
    acts ++ rest =
    [ActLock mkdirMtx; ActSend (mkdirsCall path);
     ActReceive (mkdirsCall path) resp; ActUnlock mkdirMtx].
Proof.
  intros H. destruct H.
  - exists ([], None). eexists. reflexivity.
  - exists ([], None). eexists. reflexivity.
  - exists ([], None). eexists. reflexivity.
  - exists resp. eexists. reflexivity.
  - exists resp, []. reflexivity.
Qed.

(** A goroutine in [Mkdirs] that has returned has done all of it, and
    returns the error of the response. *)
Lemma mkdirsDid_returned (path : string) err (acts : list (@Action Err)) :
  mkdirsDid path (Running (Ret err)) acts ->
  exists resp,
    acts = [ActLock mkdirMtx; ActSend (mkdirsCall path);
            ActReceive (mkdirsCall path) resp; ActUnlock mkdirMtx] /\
    err = snd resp.
Proof.
  intros H. inversion H as [Ht | Ht | Ht | resp Ht | resp Ht].
  - exists resp. split; reflexivity.
Qed.

End Proofs.

Section Skipping.

Context {Err : Type}.
Context {unmarshalList : @Unmarshaler Err notebookListT}.
Variable World : Type.
Variable transport : Request -> World -> @Response Err * World.

(** ** Objects that are neither notebooks nor directories *)

Lemma rangeLoop_dropOthers rec rec' :
  (forall path pathList s,
      run transport (rec path pathList) s =
      run transport (rec' path pathList) s) ->
  forall l pathList s,
    run transport (rangeLoop rec (filter notebookOrDirectory l) pathList) s =
    run transport (rangeLoop rec' l pathList) s.
Proof.
  intros Hrec. induction l as [| v rest IH]; intros pathList s;
    [reflexivity |].
  cbn [filter]. unfold notebookOrDirectory at 1.
  rewrite (run_rangeLoop_cons transport rec' v).
  destruct (String.eqb (ObjectType v) model.Notebook) eqn:Hn; cbn [orb].
  - rewrite run_rangeLoop_cons, Hn. apply IH.
  - destruct (String.eqb (ObjectType v) model.Directory) eqn:Hd; [| apply IH].
    rewrite run_rangeLoop_cons, Hn, Hd, Hrec.
    destruct (run transport (rec' (Path v) pathList) s) as [[r tr] s'].
    destruct r as [[pathList' [e |]] | | |]; try reflexivity.
    rewrite IH. reflexivity.
Qed.

Lemma listResult_dropOthers (resp : @Response Err) :
  @listResult Err (dropOthers unmarshalList) resp =
  (filter notebookOrDirectory (fst (listResult resp)), snd (listResult resp)).
Proof.
  unfold listResult. destruct resp as [body [e |]]; cbn [fst snd].
  - reflexivity.
  - unfold json_Unmarshal at 1. unfold dropOthers.
    destruct (unmarshalList body zeroList) as [l err] eqn:Hj.
    unfold json_Unmarshal. rewrite Hj. reflexivity.
Qed.

Lemma recursiveAddPaths_dropOthers (fuel : nat) :
  forall path pathList s,
    run transport
        (@recursiveAddPaths Err (dropOthers unmarshalList) fuel path pathList)
        s =
    run transport (recursiveAddPaths fuel path pathList) s.
Proof.
  induction fuel as [| fuel IH]; intros path pathList s; [reflexivity |].
  rewrite (run_recursiveAddPaths_S (unmarshalList := dropOthers unmarshalList)).
  rewrite run_recursiveAddPaths_S.
  destruct (transport (listCall path) (world s)) as [resp w].
  rewrite listResult_dropOthers.
  destruct (listResult resp) as [l [e |]]; cbn [fst snd]; [reflexivity |].
  rewrite (rangeLoop_dropOthers _ _ IH). reflexivity.
Qed.


End Skipping.

(** * The properties of the methods *)

Section Claims.

Context {Err : Type}.
Context {unmarshalStatus : @Unmarshaler Err WorkspaceObjectStatus}
        {unmarshalContent : @Unmarshaler Err NotebookContent}
        {unmarshalList : @Unmarshaler Err notebookListT}.
Variable World : Type.
Variable transport : Request -> World -> @Response Err * World.

(** C1.  Where the workspace holds at [path] a tree whose objects are
    notebooks and directories only, the recursive [List], given fuel for
    the height of the tree, returns without error exactly the notebooks of
    the tree, which are all its objects that are not directories; no object
    of the result is a directory. *)
Theorem List_recursive_returns_the_notebooks
    (t : Tree) (path : string) (fuel : nat) (s : State World) :
  serves transport t path -> only_notebooks t -> height t <= fuel ->
  fst (fst (run transport (List fuel path true) s)) =
    Returned (notebooks t, None) /\
  notebooks t = leaves t /\
  Forall (fun v => ObjectType v = model.Notebook /\
                   ObjectType v <> model.Directory) (notebooks t).
Proof.
  intros Hs Ho Hh.
  destruct (List_tree transport t path s Hs Hh) as (tr & s' & Hrun & _).
  rewrite Hrun. repeat split.
  - apply (notebooks_leaves transport t path (le_n _) Hs Ho).
  - apply notebooks_not_directory.
Qed.

(** C2.  Where the workspace holds a tree at [path], the recursive [List],
    given fuel for the height of the tree, does nothing but list calls, and
    the requests it issues are the list requests for the directories of the
    tree, one for each, depth first: a directory, then the directories
    below its entries in the order of its listing. *)
Theorem List_recursive_lists_each_directory_once
    (t : Tree) (path : string) (fuel : nat) (s : State World) :
  serves transport t path -> height t <= fuel ->
  requests (snd (fst (run transport (List fuel path true) s))) =
    map listCall (directories path t) /\
  Forall listQuery (snd (fst (run transport (List fuel path true) s))) /\
  exists paths, fst (fst (run transport (List fuel path true) s)) =
                Returned (paths, None).
Proof.
  intros Hs Hh.
  destruct (List_tree transport t path s Hs Hh) as (tr & s' & Hrun & Hr & Hq).
  rewrite Hrun. cbn [fst snd]. repeat split; trivial.
  exists (notebooks t). reflexivity.
Qed.

(** C3.  If, in a run of the recursive [List], the response to some remote
    call makes [list] return the error [e], then that call is the last
    event of the run, and [List] returns [e] (whatever the fuel). *)
Theorem List_recursive_aborts_on_first_error
    (fuel : nat) (path : string) (s : State World)
    (tr1 tr2 : list Event) (req : Request) (resp : Response) (e : Err) :
  snd (fst (run transport (List fuel path true) s)) =
    tr1 ++ EvQuery req resp :: tr2 ->
  snd (listResult resp) = Some e ->
  tr2 = [] /\
  fst (fst (run transport (List fuel path true) s)) = Returned ([], Some e).
Proof.
  rewrite run_List_recursive.
  pose proof (walk_ok_recursiveAddPaths transport fuel path [] s) as Hw.
  unfold walk_ok in Hw.
  destruct (run transport (recursiveAddPaths fuel path []) s) as [[r tr] s'].
  destruct Hw as (Hok & _ & Hq & _).
  intros Htr He.
  assert (Htr' : tr = tr1 ++ EvQuery req resp :: tr2)
    by (destruct r as [[paths [e' |]] | | |]; exact Htr).
  assert (Hce : call_error (req, resp) = Some e).
  { rewrite Htr' in Hq. apply Forall_app in Hq. destruct Hq as [_ Hq].
    inversion Hq as [| ev l (p & resp' & Hev) _]; subst.
    injection Hev as -> ->. rewrite call_error_list. exact He. }
  assert (Hne : errors_of tr <> []).
  { rewrite Htr'.
    change (EvQuery req resp :: tr2) with ([EvQuery req resp] ++ tr2).
    rewrite !errors_of_app, errors_of_query, Hce.
    intros H. apply app_eq_nil in H. destruct H as [_ H]. discriminate H. }
  destruct r as [[paths [e' |]] | | |]; cbn in Hok; try contradiction.
  destruct Hok as (tr0 & req0 & resp0 & Heq & Hclean & Hce0).
  rewrite Htr' in Heq.
  destruct (last_error _ _ _ _ _ _ Heq Hclean Hce) as [-> Hev].
  injection Hev as <- <-. split; [reflexivity |].
  cbn. congruence.
Qed.

(** C7.  [Delete] issues one request, a POST of [/workspace/delete] whose
    body carries [path] and [recursive] as given, and returns the error of
    that call, or no error if it has none. *)
Theorem Delete_is_one_request
    (path : string) (recursive : bool) (s : State World) :
  let req := {| method := "POST"; endpoint := "/workspace/delete";
                apiVersion := "2.0"; headers := None;
                data := NotebookDeleteRequest path recursive;
                secretsMask := None |} in
  run transport (Delete path recursive) s =
  (Returned (snd (fst (transport req (world s)))),
   [EvQuery req (fst (transport req (world s)))],
   after s (snd (transport req (world s)))).
Proof.
  unfold Delete, performQuery. cbn.
  destruct (transport _ (world s)) as [[body err] w]. reflexivity.
Qed.

(** C8.  When the recursive [List] returns an error, the list of objects it
    returns with it is nil. *)
Theorem List_recursive_error_returns_nil
    (fuel : nat) (path : string) (s : State World)
    (paths : list WorkspaceObjectStatus) (e : Err) :
  fst (fst (run transport (List fuel path true) s)) =
    Returned (paths, Some e) ->
  paths = [].
Proof.
  rewrite run_List_recursive.
  destruct (run transport (recursiveAddPaths fuel path []) s) as [[r tr] s'].
  destruct r as [[paths' [e' |]] | | |]; cbn; intros H;
    try discriminate H; injection H as <- _; reflexivity.
Qed.

(** C9.  When the list call for [path] succeeds, the flat [List] returns the
    objects decoded from its response, all of them and as they are, and the
    error of the decoding; it issues that one call. *)
Theorem List_flat_returns_the_listing
    (fuel : nat) (path : string) (s : State World)
    (body : list byte) (w : World) (l : notebookListT) (err : error) :
  transport (listCall path) (world s) = ((body, None), w) ->
  json_Unmarshal body zeroList = (l, err) ->
  run transport (List fuel path false) s =
  (Returned (Objects l, err), [EvQuery (listCall path) (body, None)],
   after s w).
Proof.
  intros Ht Hj. unfold List. rewrite run_list_, Ht.
  unfold listResult. cbn [fst snd]. rewrite Hj. reflexivity.
Qed.

Ltac single_call :=
  match goal with
  | |- error_unchanged _ [EvQuery ?q ?r] =>
    exact (error_unchanged_single q r)
  end.

(** C5.  Whatever the operation and its arguments, with the mutex free at
    the start: the operation returns (the recursive [List] may instead run
    out of fuel, and nothing else does), and the error it returns is the
    error of its last remote call, that of the HTTP call or of decoding its
    response, as it was produced; that call is the only one that produced an
    error, and without an error in the run the operation returns none. *)
Theorem errors_are_returned_unchanged (c : Call) (s : State World) :
  locked s = false ->
  error_unchanged (fst (fst (run transport (invoke c) s)))
                  (snd (fst (run transport (invoke c) s))) /\
  (fst (fst (run transport (invoke c) s)) = Diverged ->
   exists fuel path, c = CallList fuel path true).
Proof.
  intros Hfree.
  destruct c as [path content language format overwrite | path | path format
                | path | fuel path recursive | path recursive]; cbn [invoke].
  - unfold Create, performQuery. cbn.
    destruct (transport _ (world s)) as [[body [e |]] w];
      cbn -[error_unchanged]; (split; [single_call | discriminate]).
  - rewrite run_errorResult. unfold Read, performQuery. cbn.
    destruct (transport _ (world s)) as [[body [e |]] w];
      cbn -[error_unchanged].
    + split; [single_call | discriminate].
    + destruct (json_Unmarshal body zeroStatus) as [v err] eqn:Hj.
      cbn -[error_unchanged]. split; [| discriminate].
      match goal with |- error_unchanged _ [EvQuery ?q ?r] =>
        assert (Hc : call_error (q, r) = err)
          by (unfold call_error, decode_error; cbn [fst snd data];
              rewrite Hj; reflexivity)
      end.
      rewrite <- Hc. apply error_unchanged_single.
  - rewrite run_errorResult. unfold Export, performQuery. cbn.
    destruct (transport _ (world s)) as [[body [e |]] w];
      cbn -[error_unchanged].
    + split; [single_call | discriminate].
    + destruct (json_Unmarshal body zeroContent) as [v err] eqn:Hj.
      cbn -[error_unchanged]. split; [| discriminate].
      match goal with |- error_unchanged _ [EvQuery ?q ?r] =>
        assert (Hc : call_error (q, r) = err)
          by (unfold call_error, decode_error; cbn [fst snd data];
              rewrite Hj; reflexivity)
      end.
      rewrite <- Hc. apply error_unchanged_single.
  - unfold Mkdirs, mtx_Lock, mtx_Unlock, performQuery. cbn. rewrite Hfree.
    destruct (transport _ (world s)) as [[body [e |]] w];
      cbn -[error_unchanged]; (split; [| discriminate]);
      match goal with |- error_unchanged _ (_ :: EvQuery ?q ?r :: _) =>
        exact (error_unchanged_single q r) end.
  - rewrite run_errorResult. destruct recursive.
    + rewrite run_List_recursive.
      pose proof (walk_ok_recursiveAddPaths transport fuel path [] s) as Hw.
      unfold walk_ok in Hw.
      destruct (run transport (recursiveAddPaths fuel path []) s)
        as [[r tr] s'].
      destruct Hw as (Hok & _).
      apply outcome_ok_error_unchanged in Hok.
      destruct r as [[paths [e |]] | | |]; cbn [fst snd] in *;
        (split; [exact Hok | try discriminate]).
      intros _. exists fuel, path. reflexivity.
    + unfold List. rewrite run_list_.
      destruct (transport (listCall path) (world s)) as [resp w].
      cbn [fst snd]. split; [| discriminate].
      rewrite <- (call_error_list path). apply error_unchanged_single.
  - unfold Delete, performQuery. cbn.
    destruct (transport _ (world s)) as [[body [e |]] w];
      cbn -[error_unchanged]; (split; [single_call | discriminate]).
Qed.

(** C10.  The recursive [List] runs as if the objects that are neither
    notebooks nor directories were not in what the list calls decode to:
    the result, the trace and the final state are the same; and every
    object of the result is a notebook. *)
Theorem List_recursive_skips_other_objects
    (fuel : nat) (path : string) (s : State World) :
  run transport (List fuel path true) s =
  run transport (@List Err (dropOthers unmarshalList) fuel path true) s /\
  match fst (fst (run transport (List fuel path true) s)) with
  | Returned (paths, _) =>
    Forall (fun v => ObjectType v = model.Notebook) paths
  | _ => True
  end.
Proof.
  split.
  - rewrite (run_List_recursive (unmarshalList := dropOthers unmarshalList)).
    rewrite run_List_recursive, recursiveAddPaths_dropOthers. reflexivity.
  - rewrite run_List_recursive.
    pose proof (walk_ok_recursiveAddPaths transport fuel path [] s) as Hw.
    unfold walk_ok in Hw.
    destruct (run transport (recursiveAddPaths fuel path []) s)
      as [[r tr] s'].
    destruct Hw as (_ & _ & _ & Hnew).
    destruct r as [[paths [e |]] | | |]; cbn; trivial.
    destruct Hnew as (new & -> & Hnew). exact Hnew.
Qed.


(** C6.  [Create] issues one request, a POST of [/workspace/import] whose
    body carries the path, content, language, format and overwrite flag as
    given.  With the client's [performQuery] as the spec describes it,
    [Create] returns the remote-API error when the status is not a success
    or the body is malformed, and no error otherwise. *)
Theorem Create_is_one_import_request
    (roundTrip : Request -> World -> HTTPResponse * World)
    (successStatus : nat -> bool) (wellFormed : list byte -> bool)
    (apiError : HTTPResponse -> Err)
    (path content : string) (language : model.Language)
    (format : model.ExportFormat) (overwrite : bool) (s : State World) :
  let req := {| method := "POST"; endpoint := "/workspace/import";
                apiVersion := "2.0"; headers := None;
                data := NotebookImportRequest content path language format
                                              overwrite;
                secretsMask := None |} in
  let client :=
    remotePerformQuery roundTrip successStatus wellFormed apiError in
  let r := fst (roundTrip req (world s)) in
  let out := run client (Create path content language format overwrite) s in
  snd (fst out) = [EvQuery req (fst (client req (world s)))] /\
  fst (fst out) =
    Returned (if successStatus (StatusCode r) && wellFormed (Body r)
              then None else Some (apiError r)) /\
  snd out = after s (snd (roundTrip req (world s))).
Proof.
  cbn zeta. rewrite run_Create. cbn [fst snd].
  unfold remotePerformQuery.
  destruct (roundTrip _ (world s)) as [r w]. cbn [fst snd].
  destruct (successStatus (StatusCode r) && wellFormed (Body r));
    repeat split.
Qed.

(** C4.  Goroutines that all call [Mkdirs], under any schedule.  What a
    call does is the beginning of: lock [mkdirMtx], send the mkdirs request
    for its path, receive the response, unlock; a call that has returned has
    done all four, in this order, returns the error of that response and
    does not hold the mutex.  A [Lock] goes through only when no call is
    between its [Lock] and its [Unlock], and every request is sent, and its
    response received, by the goroutine that went through [Lock] last and
    has not unlocked yet.  At any time the goroutine that holds the mutex is
    the one between its [Lock] and its [Unlock], there is at most one, and
    it can take its next step without waiting. *)
Theorem Mkdirs_calls_do_not_overlap
    (paths : nat -> string) (w : World) (schedule : list nat) :
  let out := exec transport schedule (mkdirsPool paths w) in
  let req := fun i =>
    {| method := "POST"; endpoint := "/workspace/mkdirs";
       apiVersion := "2.0"; headers := None;
       data := mkDirsRequest (paths i); secretsMask := None |} in
  exclusive None (fst out) = true /\
  (forall i j,
      inside (threads (snd out) i) = true ->
      inside (threads (snd out) j) = true -> i = j) /\
  (forall i,
      holder (snd out) = Some i <-> inside (threads (snd out) i) = true) /\
  (forall i, exists resp rest,
      actionsOf i (fst out) ++ rest =
      [ActLock mkdirMtx; ActSend (req i); ActReceive (req i) resp;
       ActUnlock mkdirMtx]) /\
  (forall i err,
      threads (snd out) i = Running (Ret err) ->
      (exists resp,
          actionsOf i (fst out) =
          [ActLock mkdirMtx; ActSend (req i); ActReceive (req i) resp;
           ActUnlock mkdirMtx] /\
          err = snd resp) /\
      holder (snd out) <> Some i) /\
  (forall i,
      holder (snd out) = Some i -> pstep transport i (snd out) <> None).
Proof.
  cbn zeta.
  destruct (exec_mkdirsInv transport schedule (mkdirsPool_inv paths w))
    as [Hex Hinv].
  pose proof (@exec_mkdirsHist Err World transport paths schedule _ _
                               (mkdirsPool_hist paths w)) as Hhist.
  cbn beta in Hhist.
  assert (Hholder : forall i,
             holder (snd (exec transport schedule (mkdirsPool paths w)))
               = Some i <->
             inside (threads (snd (exec transport schedule
                                        (mkdirsPool paths w))) i) = true).
  { intros i. destruct (Hinv i) as (b & Hat & Hb).
    rewrite (mkdirsAt_inside Hat). symmetry. exact Hb. }
  split; [exact Hex |].
  split; [intros i j Hi Hj; apply (mkdirsInv_inside Hinv i j Hi Hj) |].
  split; [exact Hholder |].
  split; [intros i; apply (mkdirsDid_prefix (Hhist i)) |].
  split.
  - intros i err Hret. split.
    + specialize (Hhist i). cbn [app] in Hhist. rewrite Hret in Hhist.
      apply (mkdirsDid_returned Hhist).
    + intros Hh. apply Hholder in Hh. rewrite Hret in Hh. discriminate Hh.
  - intros i Hh. destruct (Hinv i) as (b & Hat & Hb).
    assert (b = true) as -> by (apply Hb; exact Hh).
    apply holder_can_step; assumption.
Qed.


End Claims.

(** * The properties on the demo workspace *)

Lemma demo_serves_tree : serves demoTransport demoTree "/d".
Proof.
  cbn. split.
  - intros w. exists (list_byte_of_string "/d"), (S w). split; reflexivity.
  - repeat split; try discriminate.
    intros w. exists (list_byte_of_string "/d/e"), (S w). split; reflexivity.
Qed.

Lemma demo_serves_root : serves demoTransport demoRoot "/".
Proof.
  split.
  - intros w. exists (list_byte_of_string "/"), (S w). split; reflexivity.
  - cbn [eachEntry]. repeat split; try discriminate;
      intros w; eexists; eexists; split; reflexivity.
Qed.

Lemma List_recursive_returns_the_notebooks_witness :
  serves demoTransport demoTree "/d" /\ only_notebooks demoTree /\
  height demoTree <= 3 /\
  fst (fst (run demoTransport (List 3 "/d" true) demoStart)) =
    Returned (notebooks demoTree, None) /\
  notebooks demoTree = leaves demoTree /\
  Forall (fun v => ObjectType v = model.Notebook /\
                   ObjectType v <> model.Directory) (notebooks demoTree).
Proof.
  assert (H1 : serves demoTransport demoTree "/d") by apply demo_serves_tree.
  assert (H2 : only_notebooks demoTree) by (cbn; repeat split).
  assert (H3 : height demoTree <= 3) by (cbn; lia).
  split; [exact H1 |]. split; [exact H2 |]. split; [exact H3 |].
  apply (List_recursive_returns_the_notebooks
           demoTransport demoTree "/d" demoStart H1 H2 H3).
Defined.

Lemma List_recursive_lists_each_directory_once_witness :
  serves demoTransport demoRoot "/" /\ height demoRoot <= 4 /\
  requests (snd (fst (run demoTransport (List 4 "/" true) demoStart))) =
    map listCall ["/"; "/d"; "/d/e"].
Proof.
  assert (H1 : serves demoTransport demoRoot "/") by apply demo_serves_root.
  assert (H2 : height demoRoot <= 4) by (cbn; lia).
  split; [exact H1 |]. split; [exact H2 |].
  apply (List_recursive_lists_each_directory_once
           demoTransport demoRoot "/" demoStart H1 H2).
Defined.

Lemma List_recursive_aborts_on_first_error_witness :
  snd (fst (run demoTransport (List 5 "/bad" true) demoStart)) =
    [EvQuery (listCall "/bad") (list_byte_of_string "/bad", None)] ++
    EvQuery (listCall "/bad/missing") ([], Some "RESOURCE_DOES_NOT_EXIST")
    :: [] /\
  snd (listResult (([], Some "RESOURCE_DOES_NOT_EXIST") : @Response string)) =
    Some "RESOURCE_DOES_NOT_EXIST" /\
  ([] : list (@Event string)) = [] /\
  fst (fst (run demoTransport (List 5 "/bad" true) demoStart)) =
    Returned ([], Some "RESOURCE_DOES_NOT_EXIST").
Proof.
  assert (H1 : snd (fst (run demoTransport (List 5 "/bad" true) demoStart)) =
    [EvQuery (listCall "/bad") (list_byte_of_string "/bad", None)] ++
    EvQuery (listCall "/bad/missing") ([], Some "RESOURCE_DOES_NOT_EXIST")
    :: []) by reflexivity.
  assert (H2 : snd (listResult
                      (([], Some "RESOURCE_DOES_NOT_EXIST") : @Response string))
               = Some "RESOURCE_DOES_NOT_EXIST") by reflexivity.
  split; [exact H1 |]. split; [exact H2 |].
  apply (List_recursive_aborts_on_first_error
           demoTransport 5 "/bad" demoStart _ _ _ _ H1 H2).
Defined.

Lemma errors_are_returned_unchanged_witness :
  locked demoStart = false /\
  error_unchanged
    (fst (fst (run demoTransport (invoke (CallList 5 "/bad" true))
                   demoStart)))
    (snd (fst (run demoTransport (invoke (CallList 5 "/bad" true))
                   demoStart))) /\
  (fst (fst (run demoTransport (invoke (CallList 5 "/bad" true)) demoStart))
   = Diverged ->
   exists fuel path, CallList 5 "/bad" true = CallList fuel path true).
Proof.
  split; [reflexivity |].
  apply (errors_are_returned_unchanged
           demoTransport (CallList 5 "/bad" true) demoStart).
  reflexivity.
Defined.

Lemma List_recursive_error_returns_nil_witness :
  fst (fst (run demoTransport (List 5 "/bad" true) demoStart)) =
    Returned ([], Some "RESOURCE_DOES_NOT_EXIST") /\
  ([] : list WorkspaceObjectStatus) = [].
Proof.
  assert (H : fst (fst (run demoTransport (List 5 "/bad" true) demoStart)) =
              Returned ([], Some "RESOURCE_DOES_NOT_EXIST")) by reflexivity.
  split; [exact H |].
  apply (List_recursive_error_returns_nil
           demoTransport 5 "/bad" demoStart H).
Defined.

(** The traversal behind it had collected a notebook when the error came. *)
Example recursiveAddPaths_keeps_what_it_collected :
  fst (fst (run demoTransport (recursiveAddPaths 5 "/bad" []) demoStart)) =
  Returned ([demoNotebook "/bad/a"], Some "RESOURCE_DOES_NOT_EXIST").
Proof. reflexivity. Qed.

Lemma List_flat_returns_the_listing_witness :
  demoTransport (listCall "/") (world demoStart) =
    ((list_byte_of_string "/", None), 1) /\
  json_Unmarshal (list_byte_of_string "/") zeroList =
    ({| Objects := [demoNotebook "/a"; demoDirectory "/d";
                    demoLibrary "/l"; demoNotebook "/z"] |}, None) /\
  run demoTransport (List 0 "/" false) demoStart =
  (Returned ([demoNotebook "/a"; demoDirectory "/d"; demoLibrary "/l";
              demoNotebook "/z"], None),
   [EvQuery (listCall "/") (list_byte_of_string "/", None)],
   after demoStart 1).
Proof.
  assert (H1 : demoTransport (listCall "/") (world demoStart) =
               ((list_byte_of_string "/", None), 1)) by reflexivity.
  assert (H2 : json_Unmarshal (list_byte_of_string "/") zeroList =
               ({| Objects := [demoNotebook "/a"; demoDirectory "/d";
                               demoLibrary "/l"; demoNotebook "/z"] |},
                (None : @error string))) by reflexivity.
  split; [exact H1 |]. split; [exact H2 |].
  apply (List_flat_returns_the_listing demoTransport 0 "/" demoStart H1 H2).
Defined.

Lemma Mkdirs_calls_do_not_overlap_witness :
  threads (snd (exec demoTransport [0; 1; 1; 0; 1; 0; 0; 1; 2; 1; 1; 2; 1]
                     (mkdirsPool (fun _ => "/x") 0))) 0 =
    Running (Ret None) /\
  (exists resp,
      actionsOf 0 (fst (exec demoTransport
                             [0; 1; 1; 0; 1; 0; 0; 1; 2; 1; 1; 2; 1]
                             (mkdirsPool (fun _ => "/x") 0))) =
      [ActLock mkdirMtx; ActSend (mkdirsCall "/x");
       ActReceive (mkdirsCall "/x") resp; ActUnlock mkdirMtx] /\
      (None : @error string) = snd resp) /\
  holder (snd (exec demoTransport [0; 1; 1; 0; 1; 0; 0; 1; 2; 1; 1; 2; 1]
                    (mkdirsPool (fun _ => "/x") 0))) <> Some 0.
Proof.
  assert (H : threads (snd (exec demoTransport
                                 [0; 1; 1; 0; 1; 0; 0; 1; 2; 1; 1; 2; 1]
                                 (mkdirsPool (fun _ => "/x") 0))) 0 =
              Running (Ret (None : @error string))) by reflexivity.
  split; [exact H |].
  apply (Mkdirs_calls_do_not_overlap
           demoTransport (fun _ => "/x") 0
           [0; 1; 1; 0; 1; 0; 0; 1; 2; 1; 1; 2; 1]).
  exact H.
Defined.

(** Three goroutines under that schedule: goroutines 1 and 2 ask for the
    lock while goroutine 0 holds it and get it only after its unlock. *)
Example mkdirs_schedule :
  map fst (fst (exec demoTransport [0; 1; 1; 0; 1; 0; 0; 1; 2; 1; 1; 2; 1]
                     (mkdirsPool (fun _ => "/x") 0))) =
  [0; 0; 0; 0; 1; 1; 1; 1].
Proof. reflexivity. Qed.

(** [Create] on the demo HTTP service: no error on status 200, the
    remote-API error on status 404. *)
Example Create_demo :
  fst (fst (run (remotePerformQuery demoRoundTrip demoSuccess demoWellFormed
                                    demoApiError)
                (Create "/n" "cHJpbnQoMSk=" "PYTHON" "SOURCE" true)
                demoStart)) = Returned None /\
  fst (fst (run (remotePerformQuery demoRoundTrip demoSuccess demoWellFormed
                                    demoApiError)
                (Create "/missing/n" "cHJpbnQoMSk=" "PYTHON" "SOURCE" true)
                demoStart)) = Returned (Some "not found").
Proof. split; reflexivity. Qed.

(** The library of the demo workspace is not in the result of the recursive
    [List], and no call is issued for it. *)
Example List_demo_skips_the_library :
  run demoTransport (List 4 "/" true) demoStart =
  (Returned ([demoNotebook "/a"; demoNotebook "/d/b"; demoNotebook "/z"],
             None),
   [EvQuery (listCall "/") (list_byte_of_string "/", None);
    EvQuery (listCall "/d") (list_byte_of_string "/d", None);
    EvQuery (listCall "/d/e") (list_byte_of_string "/d/e", None)],
   {| world := 3; locked := false |}).
Proof. reflexivity. Qed.

(** * Further properties of the methods *)

Section More.

Context {Err : Type}.
Context {unmarshalStatus : @Unmarshaler Err WorkspaceObjectStatus}
        {unmarshalContent : @Unmarshaler Err NotebookContent}
        {unmarshalList : @Unmarshaler Err notebookListT}.
Variable World : Type.
Variable transport : Request -> World -> @Response Err * World.

(** ** The equations of [run] on [Read], [Export], [Mkdirs], [Delete] *)

Lemma run_Read (path : string) (s : State World) :
  let req := {| method := http.MethodGet; endpoint := "/workspace/get-status";
                apiVersion := "2.0"; headers := None;
                data := notebookGetStatusRequest path;
                secretsMask := None |} in
  run transport (Read path) s =
  (Returned match snd (fst (transport req (world s))) with
            | Some e => (zeroStatus, Some e)
            | None =>
              json_Unmarshal (fst (fst (transport req (world s)))) zeroStatus
            end,
   [EvQuery req (fst (transport req (world s)))],
   after s (snd (transport req (world s)))).
Proof.
  unfold Read, performQuery. cbn.
  destruct (transport _ (world s)) as [[body [e |]] w]; cbn; [reflexivity |].
  destruct (json_Unmarshal body zeroStatus) as [v err]. reflexivity.
Qed.

Lemma run_Export (path : string) (format : model.ExportFormat)
      (s : State World) :
  let req := {| method := http.MethodGet; endpoint := "/workspace/export";
                apiVersion := "2.0"; headers := None;
                data := notebookExportRequest path format;
                secretsMask := None |} in
  run transport (Export path format) s =
  (Returned match snd (fst (transport req (world s))) with
            | Some e => ("", Some e)
            | None =>
              (Content (fst (json_Unmarshal
                               (fst (fst (transport req (world s))))
                               zeroContent)),
               snd (json_Unmarshal (fst (fst (transport req (world s))))
                                   zeroContent))
            end,
   [EvQuery req (fst (transport req (world s)))],
   after s (snd (transport req (world s)))).
Proof.
  unfold Export, performQuery. cbn.
  destruct (transport _ (world s)) as [[body [e |]] w]; cbn; [reflexivity |].
  destruct (json_Unmarshal body zeroContent) as [v err]. reflexivity.
Qed.

Lemma run_Mkdirs (path : string) (s : State World) :
  let req := {| method := http.MethodPost; endpoint := "/workspace/mkdirs";
                apiVersion := "2.0"; headers := None;
                data := mkDirsRequest path; secretsMask := None |} in
  run transport (Mkdirs path) s =
  if locked s then (Blocked, [], s)
  else
    (Returned (snd (fst (transport req (world s)))),
     [EvLock mkdirMtx; EvQuery req (fst (transport req (world s)));
      EvUnlock mkdirMtx],
     {| world := snd (transport req (world s)); locked := false |}).
Proof.
  unfold Mkdirs, mtx_Lock, mtx_Unlock, performQuery. cbn.
  destruct (locked s); [reflexivity |]. cbn.
  destruct (transport _ (world s)) as [[body err] w]. reflexivity.
Qed.

Lemma run_Delete (path : string) (recursive : bool) (s : State World) :
  let req := {| method := http.MethodPost; endpoint := "/workspace/delete";
                apiVersion := "2.0"; headers := None;
                data := NotebookDeleteRequest path recursive;
                secretsMask := None |} in
  run transport (Delete path recursive) s =
  (Returned (snd (fst (transport req (world s)))),
   [EvQuery req (fst (transport req (world s)))],
   after s (snd (transport req (world s)))).
Proof.
  unfold Delete, performQuery. cbn.
  destruct (transport _ (world s)) as [[body err] w]. reflexivity.
Qed.

(** ** [Read], [Export], [Mkdirs] *)

(** X1.  [Read] issues one request, a GET of [/workspace/get-status] with
    the path.  When the call fails it returns the zero status and the error
    of the call, and does not decode the body; otherwise it returns what
    decoding the body into the zero status gives, value and error. *)
Theorem Read_is_one_request (path : string) (s : State World) :
  let req := {| method := "GET"; endpoint := "/workspace/get-status";
                apiVersion := "2.0"; headers := None;
                data := notebookGetStatusRequest path;
                secretsMask := None |} in
  run transport (Read path) s =
  (Returned match snd (fst (transport req (world s))) with
            | Some e => (zeroStatus, Some e)
            | None =>
              json_Unmarshal (fst (fst (transport req (world s)))) zeroStatus
            end,
   [EvQuery req (fst (transport req (world s)))],
   after s (snd (transport req (world s)))).
Proof. apply run_Read. Qed.

(** X2.  [Export] issues one request, a GET of [/workspace/export] with the
    path and the format.  When the call fails it returns the empty string
    and the error of the call; otherwise the content decoded from the body,
    with the error of the decoding. *)
Theorem Export_is_one_request
    (path : string) (format : model.ExportFormat) (s : State World) :
  let req := {| method := "GET"; endpoint := "/workspace/export";
                apiVersion := "2.0"; headers := None;
                data := notebookExportRequest path format;
                secretsMask := None |} in
  run transport (Export path format) s =
  (Returned match snd (fst (transport req (world s))) with
            | Some e => ("", Some e)
            | None =>
              (Content (fst (json_Unmarshal
                               (fst (fst (transport req (world s))))
                               zeroContent)),
               snd (json_Unmarshal (fst (fst (transport req (world s))))
                                   zeroContent))
            end,
   [EvQuery req (fst (transport req (world s)))],
   after s (snd (transport req (world s)))).
Proof. apply run_Export. Qed.

(** X3.  [Mkdirs] alone: when the mutex is held it waits and has sent
    nothing; when the mutex is free it locks, issues one POST of
    [/workspace/mkdirs] with the path, unlocks, and returns the error of the
    call; the mutex is free afterwards whether the call failed or not. *)
Theorem Mkdirs_locks_calls_unlocks (path : string) (s : State World) :
  let req := {| method := "POST"; endpoint := "/workspace/mkdirs";
                apiVersion := "2.0"; headers := None;
                data := mkDirsRequest path; secretsMask := None |} in
  run transport (Mkdirs path) s =
  if locked s then (Blocked, [], s)
  else
    (Returned (snd (fst (transport req (world s)))),
     [EvLock mkdirMtx; EvQuery req (fst (transport req (world s)));
      EvUnlock mkdirMtx],
     {| world := snd (transport req (world s)); locked := false |}).
Proof. apply run_Mkdirs. Qed.

(** ** All the operations *)

Lemma listQuery_isQuery (tr : list (@Event Err)) :
  Forall listQuery tr -> Forall isQuery tr.
Proof.
  apply Forall_impl. intros ev (path & resp & ->).
  exists (listCall path), resp. reflexivity.
Qed.

Lemma listQuery_conforms (tr : list (@Event Err)) :
  Forall listQuery tr -> Forall conforms (requests tr).
Proof.
  induction 1 as [| ev tr (path & resp & ->) _ IH]; [constructor |].
  constructor; [| exact IH]. repeat split.
Qed.

Lemma listQuery_requests_length (tr : list (@Event Err)) :
  Forall listQuery tr -> Datatypes.length (requests tr) = Datatypes.length tr.
Proof.
  induction 1 as [| ev tr (path & resp & ->) _ IH]; [reflexivity |].
  cbn. f_equal. exact IH.
Qed.

Ltac one_query :=
  repeat split; try discriminate;
  try (constructor; [| constructor]); try (eexists; eexists; reflexivity);
  repeat split.

(** X4.  Every operation but [Mkdirs] leaves the mutex alone: whatever the
    state of the mutex, it does not wait for it, its run has remote calls
    only, and the mutex is afterwards as it was. *)
Theorem only_Mkdirs_takes_the_mutex (c : Call) (s : State World) :
  (forall path, c <> CallMkdirs path) ->
  Forall isQuery (snd (fst (run transport (invoke c) s))) /\
  locked (snd (run transport (invoke c) s)) = locked s /\
  fst (fst (run transport (invoke c) s)) <> Blocked /\
  fst (fst (run transport (invoke c) s)) <> Fatal.
Proof.
  intros Hc.
  destruct c as [path content language format overwrite | path | path format
                | path | fuel path recursive | path recursive]; cbn [invoke].
  - rewrite run_Create. cbn [fst snd]. one_query.
  - rewrite run_errorResult, run_Read. cbn [fst snd]. one_query.
  - rewrite run_errorResult, run_Export. cbn [fst snd]. one_query.
  - exfalso. apply (Hc path). reflexivity.
  - rewrite run_errorResult. destruct recursive.
    + rewrite run_List_recursive.
      pose proof (walk_ok_recursiveAddPaths transport fuel path [] s) as Hw.
      unfold walk_ok in Hw.
      destruct (run transport (recursiveAddPaths fuel path []) s)
        as [[r tr] s'].
      destruct Hw as (Hok & Hl & Hq & _).
      destruct r as [[paths [e |]] | | |]; cbn [fst snd] in *;
        try contradiction;
        (split; [apply listQuery_isQuery, Hq |]);
        (split; [exact Hl |]); split; discriminate.
    + unfold List. rewrite run_list_.
      destruct (transport (listCall path) (world s)) as [resp w].
      cbn [fst snd]. one_query.
  - rewrite run_Delete. cbn [fst snd]. one_query.
Qed.

(** X5.  Every request that any operation issues, from any state, has API
    version 2.0, no headers and no secrets mask, and goes with the method
    and to the endpoint of its body: POST for import, mkdirs and delete, GET
    for get-status, export and list. *)
Theorem every_request_conforms (c : Call) (s : State World) :
  Forall conforms (requests (snd (fst (run transport (invoke c) s)))).
Proof.
  destruct c as [path content language format overwrite | path | path format
                | path | fuel path recursive | path recursive]; cbn [invoke].
  - rewrite run_Create. cbn. one_query.
  - rewrite run_errorResult, run_Read. cbn. one_query.
  - rewrite run_errorResult, run_Export. cbn. one_query.
  - rewrite run_Mkdirs.
    destruct (locked s); cbn; [constructor | one_query].
  - rewrite run_errorResult. destruct recursive.
    + rewrite run_List_recursive.
      pose proof (walk_ok_recursiveAddPaths transport fuel path [] s) as Hw.
      unfold walk_ok in Hw.
      destruct (run transport (recursiveAddPaths fuel path []) s)
        as [[r tr] s'].
      destruct Hw as (_ & _ & Hq & _).
      destruct r as [[paths [e |]] | | |]; cbn [fst snd];
        apply listQuery_conforms, Hq.
    + unfold List. rewrite run_list_.
      destruct (transport (listCall path) (world s)) as [resp w].
      cbn. one_query.
  - rewrite run_Delete. cbn. one_query.
Qed.

(** X6.  With the mutex free, every operation but the recursive [List]
    returns after exactly one remote call. *)
Theorem one_remote_call_each (c : Call) (s : State World) :
  locked s = false ->
  (forall fuel path, c <> CallList fuel path true) ->
  Datatypes.length (requests (snd (fst (run transport (invoke c) s)))) = 1 /\
  exists err, fst (fst (run transport (invoke c) s)) = Returned err.
Proof.
  intros Hfree Hc.
  destruct c as [path content language format overwrite | path | path format
                | path | fuel path recursive | path recursive]; cbn [invoke].
  - rewrite run_Create. cbn. split; [reflexivity | eexists; reflexivity].
  - rewrite run_errorResult, run_Read. cbn.
    split; [reflexivity | eexists; reflexivity].
  - rewrite run_errorResult, run_Export. cbn.
    split; [reflexivity | eexists; reflexivity].
  - rewrite run_Mkdirs, Hfree. cbn.
    split; [reflexivity | eexists; reflexivity].
  - destruct recursive; [exfalso; apply (Hc fuel path); reflexivity |].
    rewrite run_errorResult. unfold List. rewrite run_list_.
    destruct (transport (listCall path) (world s)) as [resp w]. cbn.
    split; [reflexivity | eexists; reflexivity].
  - rewrite run_Delete. cbn.
    split; [reflexivity | eexists; reflexivity].
Qed.

(** ** The traversal on any remote *)

(** X7.  [recursiveAddPaths] only appends to the list behind its pointer,
    and only notebooks: whatever it returns, error or not, the list it
    leaves is the list it was given followed by notebooks. *)
Theorem recursiveAddPaths_only_appends_notebooks
    (fuel : nat) (path : string) (pathList : list WorkspaceObjectStatus)
    (s : State World) (pathList' : list WorkspaceObjectStatus)
    (err : @error Err) :
  fst (fst (run transport (recursiveAddPaths fuel path pathList) s)) =
    Returned (pathList', err) ->
  exists new, pathList' = pathList ++ new /\
              Forall (fun v => ObjectType v = model.Notebook) new.
Proof.
  pose proof (walk_ok_recursiveAddPaths transport fuel path pathList s) as Hw.
  unfold walk_ok in Hw.
  destruct (run transport (recursiveAddPaths fuel path pathList) s)
    as [[r tr] s'].
  destruct Hw as (_ & _ & _ & Hnew). cbn [fst]. intros ->. exact Hnew.
Qed.

(** X8.  A directory without objects: when the list call for [path]
    succeeds and decodes to no object, the recursive [List], with any fuel
    but none, returns no object and no error after that one call. *)
Theorem List_recursive_of_an_empty_directory
    (fuel : nat) (path : string) (s : State World)
    (body : list byte) (w : World) :
  transport (listCall path) (world s) = ((body, None), w) ->
  json_Unmarshal body zeroList = ({| Objects := [] |}, None) ->
  run transport (List (S fuel) path true) s =
  (Returned ([], None), [EvQuery (listCall path) (body, None)], after s w).
Proof.
  intros Ht Hj. rewrite run_List_recursive, run_recursiveAddPaths_S, Ht.
  unfold listResult. cbn [fst snd]. rewrite Hj. reflexivity.
Qed.

(** X9.  A response that does not decode: when the list call for [path]
    succeeds and decoding its body gives the error [e], the recursive [List]
    returns nil and [e] after that one call, whatever objects the decoder
    had filled in: it goes into none of them.  (The flat [List] returns
    those objects with the error.) *)
Theorem List_recursive_on_a_decoding_error
    (fuel : nat) (path : string) (s : State World)
    (body : list byte) (w : World) (l : notebookListT) (e : Err) :
  transport (listCall path) (world s) = ((body, None), w) ->
  json_Unmarshal body zeroList = (l, Some e) ->
  run transport (List (S fuel) path true) s =
    (Returned ([], Some e), [EvQuery (listCall path) (body, None)],
     after s w) /\
  run transport (List (S fuel) path false) s =
    (Returned (Objects l, Some e), [EvQuery (listCall path) (body, None)],
     after s w).
Proof.
  intros Ht Hj. split.
  - rewrite run_List_recursive, run_recursiveAddPaths_S, Ht.
    unfold listResult. cbn [fst snd]. rewrite Hj. reflexivity.
  - unfold List. rewrite run_list_, Ht.
    unfold listResult. cbn [fst snd]. rewrite Hj. reflexivity.
Qed.


(** ** What the traversal returns, on any remote *)

Lemma listed_app (tr1 tr2 : list (@Event Err)) :
  listed (tr1 ++ tr2) = listed tr1 ++ listed tr2.
Proof. unfold listed. rewrite queries_app. apply flat_map_app. Qed.

Lemma notebook_not_directory (v : WorkspaceObjectStatus) :
  String.eqb (ObjectType v) model.Notebook = true -> isDirectory v = false.
Proof.
  intros H. apply String.eqb_eq in H. unfold isDirectory. rewrite H.
  reflexivity.
Qed.

Lemma walk_counts_rangeLoop rec :
  (forall v pathList s,
      isDirectory v = true ->
      walk_counts [v] pathList (run transport (rec (Path v) pathList) s)) ->
  forall l pathList s,
    walk_counts l pathList (run transport (rangeLoop rec l pathList) s).
Proof.
  intros Hrec. induction l as [| v rest IH]; intros pathList s acc tr s' Hrun.
  - cbn in Hrun. injection Hrun as <- <- <-. cbn. rewrite app_nil_r.
    split; [apply Permutation_refl | reflexivity].
  - rewrite run_rangeLoop_cons in Hrun. cbn [filter]. unfold isNotebook at 1.
    destruct (String.eqb (ObjectType v) model.Notebook) eqn:Hn.
    + rewrite (notebook_not_directory v Hn).
      destruct (IH (pathList ++ [v]) s acc tr s' Hrun) as [Hp Hc].
      split; [| exact Hc]. rewrite <- app_assoc in Hp. exact Hp.
    + fold (isDirectory v) in Hrun.
      destruct (isDirectory v) eqn:Hd; [| apply (IH pathList s acc tr s' Hrun)].
      pose proof (Hrec v pathList s Hd) as Hv.
      destruct (run transport (rec (Path v) pathList) s) as [[r tr1] s1].
      destruct r as [[pathList1 [e |]] | | |]; try discriminate Hrun.
      destruct (Hv pathList1 tr1 s1 eq_refl) as [Hp1 Hc1].
      pose proof (IH pathList1 s1) as Hl.
      destruct (run transport (rangeLoop rec rest pathList1) s1)
        as [[r' tr2] s2].
      injection Hrun as -> <- <-.
      destruct (Hl acc tr2 s2 eq_refl) as [Hp2 Hc2].
      cbn [filter] in Hp1, Hc1. unfold isNotebook at 1 in Hp1.
      rewrite Hn in Hp1. rewrite Hd in Hc1. cbn [app] in Hp1.
      rewrite listed_app, queries_app, !filter_app, !length_app. split.
      * rewrite Hp2. rewrite Hp1. rewrite <- !app_assoc.
        apply Permutation_app_head. rewrite !app_assoc.
        apply Permutation_app_tail. apply Permutation_app_comm.
      * cbn [Datatypes.length] in *. lia.
Qed.

Lemma walk_counts_recursiveAddPaths (fuel : nat) :
  forall v pathList s,
    isDirectory v = true ->
    walk_counts [v] pathList
                (run transport (recursiveAddPaths fuel (Path v) pathList) s).
Proof.
  induction fuel as [| fuel IH]; intros v pathList s Hd acc tr s' Hrun;
    [discriminate Hrun |].
  rewrite run_recursiveAddPaths_S in Hrun.
  destruct (transport (listCall (Path v)) (world s)) as [resp w] eqn:Ht.
  destruct (listResult resp) as [l [e |]] eqn:Hl; [discriminate Hrun |].
  pose proof (walk_counts_rangeLoop _ IH l pathList (after s w)) as Hw.
  destruct (run transport (rangeLoop _ l pathList) (after s w))
    as [[r tr1] s1].
  injection Hrun as -> <- <-.
  destruct (Hw acc tr1 s1 eq_refl) as [Hp Hc].
  assert (Hlisted : listed (EvQuery (listCall (Path v)) resp :: tr1) =
                    l ++ listed tr1).
  { change (EvQuery (listCall (Path v)) resp :: tr1)
      with ([EvQuery (listCall (Path v)) resp] ++ tr1).
    rewrite listed_app. unfold listed at 1. cbn. rewrite Hl, app_nil_r.
    reflexivity. }
  rewrite Hlisted, !filter_app, !length_app.
  cbn [filter]. unfold isNotebook at 1.
  assert (Hn : String.eqb (ObjectType v) model.Notebook = false).
  { unfold isDirectory in Hd. apply String.eqb_eq in Hd. rewrite Hd.
    reflexivity. }
  rewrite Hn, Hd. cbn [app]. split; [exact Hp |].
  cbn [queries flat_map app Datatypes.length]. fold (queries tr1).
  rewrite Hc. reflexivity.
Qed.


Lemma walk_counts_List (fuel : nat) (path : string) (s : State World)
      (paths : list WorkspaceObjectStatus) (tr : list Event)
      (s' : State World) :
  run transport (List fuel path true) s = (Returned (paths, None), tr, s') ->
  Permutation paths (filter isNotebook (listed tr)) /\
  Datatypes.length (requests tr) =
  S (Datatypes.length (filter isDirectory (listed tr))).
Proof.
  intros Hrun. rewrite run_List_recursive in Hrun.
  pose proof (walk_counts_recursiveAddPaths fuel
                {| ObjectType := model.Directory; Path := path;
                   Language := "" |} [] s eq_refl) as Hw.
  cbn [Path] in Hw.
  destruct (run transport (recursiveAddPaths fuel path []) s)
    as [[r tr0] s0].
  destruct r as [[paths0 [e |]] | | |]; try discriminate Hrun.
  injection Hrun as -> -> ->.
  destruct (Hw paths tr s' eq_refl) as [Hp Hc]. split; [exact Hp |].
  unfold requests. rewrite length_map. exact Hc.
Qed.

(** X10.  On any remote, when the recursive [List] returns without error,
    what it returns is, up to the order, the notebooks among all the objects
    that its list calls decoded: each as often as it was listed, and nothing
    else. *)
Theorem List_recursive_returns_the_listed_notebooks
    (fuel : nat) (path : string) (s : State World)
    (paths : list WorkspaceObjectStatus) (tr : list Event)
    (s' : State World) :
  run transport (List fuel path true) s = (Returned (paths, None), tr, s') ->
  Permutation paths (filter isNotebook (listed tr)).
Proof. intros H. apply (walk_counts_List _ _ _ H). Qed.

(** X11.  On any remote, when the recursive [List] returns without error,
    it has issued one call for [path] and one for each object of type
    directory that its list calls decoded, and no other. *)
Theorem List_recursive_calls_once_per_listed_directory
    (fuel : nat) (path : string) (s : State World)
    (paths : list WorkspaceObjectStatus) (tr : list Event)
    (s' : State World) :
  run transport (List fuel path true) s = (Returned (paths, None), tr, s') ->
  Datatypes.length (requests tr) =
  S (Datatypes.length (filter isDirectory (listed tr))).
Proof. intros H. apply (walk_counts_List _ _ _ H). Qed.

(** ** Fuel *)

Lemma rangeLoop_more_fuel rec rec' :
  (forall path pathList s,
      fst (fst (run transport (rec path pathList) s)) <> Diverged ->
      run transport (rec' path pathList) s =
      run transport (rec path pathList) s) ->
  forall l pathList s,
    fst (fst (run transport (rangeLoop rec l pathList) s)) <> Diverged ->
    run transport (rangeLoop rec' l pathList) s =
    run transport (rangeLoop rec l pathList) s.
Proof.
  intros Hrec. induction l as [| v rest IH]; intros pathList s Hnd;
    [reflexivity |].
  rewrite run_rangeLoop_cons in Hnd. rewrite !run_rangeLoop_cons.
  destruct (String.eqb (ObjectType v) model.Notebook); [apply IH, Hnd |].
  destruct (String.eqb (ObjectType v) model.Directory); [| apply IH, Hnd].
  pose proof (Hrec (Path v) pathList s) as Hv.
  destruct (run transport (rec (Path v) pathList) s) as [[r tr] s1].
  rewrite Hv.
  - destruct r as [[pathList1 [e |]] | | |]; try reflexivity.
    pose proof (IH pathList1 s1) as Hl.
    destruct (run transport (rangeLoop rec rest pathList1) s1)
      as [[r' tr'] s2].
    rewrite Hl; [reflexivity |]. exact Hnd.
  - destruct r as [[pathList1 [e |]] | | |]; cbn; try discriminate.
    exact Hnd.
Qed.

Lemma recursiveAddPaths_more_fuel (fuel : nat) :
  forall fuel' path pathList s,
    fuel <= fuel' ->
    fst (fst (run transport (recursiveAddPaths fuel path pathList) s))
      <> Diverged ->
    run transport (recursiveAddPaths fuel' path pathList) s =
    run transport (recursiveAddPaths fuel path pathList) s.
Proof.
  induction fuel as [| fuel IH]; intros fuel' path pathList s Hle Hnd.
  - exfalso. apply Hnd. reflexivity.
  - destruct fuel' as [| fuel']; [lia |].
    rewrite run_recursiveAddPaths_S in Hnd. rewrite !run_recursiveAddPaths_S.
    destruct (transport (listCall path) (world s)) as [resp w].
    destruct (listResult resp) as [l [e |]]; [reflexivity |].
    assert (Hrec : forall path pathList s,
               fst (fst (run transport
                             (recursiveAddPaths fuel path pathList) s))
                 <> Diverged ->
               run transport (recursiveAddPaths fuel' path pathList) s =
               run transport (recursiveAddPaths fuel path pathList) s)
      by (intros; apply IH; [lia | assumption]).
    pose proof (rangeLoop_more_fuel _ _ Hrec l pathList (after s w)) as Hl.
    destruct (run transport (rangeLoop (recursiveAddPaths fuel) l pathList)
                  (after s w)) as [[r tr] s'].
    rewrite Hl; [reflexivity |]. exact Hnd.
Qed.

(** X12.  The fuel is a bound and nothing more: when [List] with some fuel
    does not run out of it, [List] with more fuel does the same in every
    respect: same result, same calls with the same responses, same state at
    the end. *)
Theorem List_result_does_not_depend_on_fuel
    (fuel fuel' : nat) (path : string) (recursive : bool) (s : State World) :
  fuel <= fuel' ->
  fst (fst (run transport (List fuel path recursive) s)) <> Diverged ->
  run transport (List fuel' path recursive) s =
  run transport (List fuel path recursive) s.
Proof.
  intros Hle Hnd. destruct recursive; [| reflexivity].
  rewrite run_List_recursive in Hnd. rewrite !run_List_recursive.
  pose proof (recursiveAddPaths_more_fuel path [] s Hle) as H.
  destruct (run transport (recursiveAddPaths fuel path []) s) as [[r tr] s'].
  rewrite H; [reflexivity |].
  destruct r as [[paths [e |]] | | |]; cbn; try discriminate.
  exact Hnd.
Qed.


(** ** Goroutines in [Mkdirs], again *)

(** X13.  Goroutines that all call [Mkdirs] cannot get stuck: under any
    schedule and at any time, a goroutine has returned, or can take a step
    itself, or waits for the mutex whose holder can take a step.  (The
    holder never waits: it sends, receives and unlocks.) *)
Theorem Mkdirs_calls_never_deadlock
    (paths : nat -> string) (w : World) (schedule : list nat) (i : nat) :
  (exists err,
      threads (snd (exec transport schedule (mkdirsPool paths w))) i =
      Running (Ret err)) \/
  pstep transport i (snd (exec transport schedule (mkdirsPool paths w)))
    <> None \/
  exists j,
    holder (snd (exec transport schedule (mkdirsPool paths w))) = Some j /\
    pstep transport j (snd (exec transport schedule (mkdirsPool paths w)))
      <> None.
Proof.
  destruct (exec_mkdirsInv transport schedule (mkdirsPool_inv paths w))
    as [_ Hinv].
  set (P := snd (exec transport schedule (mkdirsPool paths w))) in *.
  destruct (Hinv i) as (b & Hat & Hb).
  destruct b.
  - right. left. apply holder_can_step; [exact Hat | apply Hb; reflexivity].
  - inversion Hat as [path Ht | path Ht | path Ht | err Ht | err Ht].
    + destruct (holder P) as [j |] eqn:Hh.
      * right. right. exists j. split; [reflexivity |].
        destruct (Hinv j) as (bj & Haj & Hbj).
        assert (bj = true) as -> by (apply Hbj; exact Hh).
        apply holder_can_step; assumption.
      * right. left. unfold pstep. rewrite <- Ht. cbn. rewrite Hh.
        discriminate.
    + left. exists err. reflexivity.
Qed.

Lemma pstep_mkdirsOn (paths : nat -> string) (i : nat)
      (P P' : Pool World (@error Err)) (a : Action) :
  (forall j, mkdirsOn (paths j) (threads P j)) ->
  pstep transport i P = Some (a, P') ->
  (forall j, mkdirsOn (paths j) (threads P' j)) /\
  (forall j, j <> i -> threads P' j = threads P j) /\
  (sentBy a = [] /\
   (beforeSend (threads P' i) = true -> beforeSend (threads P i) = true) \/
   sentBy a = [mkdirsCall (paths i)] /\
   beforeSend (threads P i) = true /\ beforeSend (threads P' i) = false).
Proof.
  intros Hinv Hstep. unfold pstep in Hstep.
  assert (Hupd : forall t' (w' : World) h',
            mkdirsOn (paths i) t' ->
            (forall j, mkdirsOn (paths j)
                         (threads {| threads := setThread i t' (threads P);
                                     remote := w'; holder := h' |} j)) /\
            (forall j, j <> i ->
                       threads {| threads := setThread i t' (threads P);
                                  remote := w'; holder := h' |} j =
                       threads P j)).
  { intros t' w' h' Ht'. split; intros j; cbn.
    - destruct (Nat.eq_dec j i) as [-> | Hne].
      + rewrite setThread_same. exact Ht'.
      + rewrite setThread_other by exact Hne. apply Hinv.
    - intros Hne. apply setThread_other, Hne. }
  pose proof (Hinv i) as Hi.
  inversion Hi as [Ht | Ht | Ht | err Ht | err Ht];
    rewrite <- Ht in Hstep; cbn -[mkdirsReceive] in Hstep.
  - destruct (holder P); [discriminate |]. injection Hstep as <- <-.
    destruct (Hupd (Running (mkdirsLocked (paths i))) (remote P) (Some i)
                   (onLocked _)) as [H1 H2].
    split; [exact H1 |]. split; [exact H2 |]. left.
    split; [reflexivity |]. intros _. reflexivity.
  - injection Hstep as <- <-.
    destruct (Hupd (InFlight (mkdirsCall (paths i)) (mkdirsReceive (paths i)))
                   (remote P) (holder P) (onInFlight _)) as [H1 H2].
    split; [exact H1 |]. split; [exact H2 |]. right.
    split; [reflexivity |]. split; [reflexivity |].
    cbn. rewrite setThread_same. reflexivity.
  - destruct (transport (mkdirsCall (paths i)) (remote P))
      as [[body err] w'].
    injection Hstep as <- <-.
    destruct (Hupd (Running (Unlock mkdirMtx (Ret err))) w' (holder P)
                   (onUnlock _ err)) as [H1 H2].
    split; [exact H1 |]. split; [exact H2 |]. left.
    split; [reflexivity |]. cbn. rewrite setThread_same. discriminate.
  - destruct (holder P); [| discriminate]. injection Hstep as <- <-.
    destruct (Hupd (Running (Ret err)) (remote P) None (onReturn _ err))
      as [H1 H2].
    split; [exact H1 |]. split; [exact H2 |]. left.
    split; [reflexivity |]. cbn. rewrite setThread_same. discriminate.
  - discriminate.
Qed.

Lemma actionsOf_cons (i j : nat) (a : @Action Err) tr :
  actionsOf i ((j, a) :: tr) =
  if Nat.eqb j i then a :: actionsOf i tr else actionsOf i tr.
Proof.
  unfold actionsOf. cbn [filter fst]. destruct (Nat.eqb j i); reflexivity.
Qed.

Lemma sent_cons (a : @Action Err) acts :
  sent (a :: acts) = sentBy a ++ sent acts.
Proof. reflexivity. Qed.

Lemma exec_sent (paths : nat -> string) (i : nat) (schedule : list nat) :
  forall P : Pool World (@error Err),
    (forall j, mkdirsOn (paths j) (threads P j)) ->
    sent (actionsOf i (fst (exec transport schedule P))) = [] \/
    beforeSend (threads P i) = true /\
    sent (actionsOf i (fst (exec transport schedule P))) =
    [mkdirsCall (paths i)].
Proof.
  induction schedule as [| j schedule IH]; intros P Hinv.
  - left. reflexivity.
  - cbn [exec]. destruct (pstep transport j P) as [[a P'] |] eqn:Hstep;
      [| apply IH, Hinv].
    destruct (pstep_mkdirsOn paths j P Hinv Hstep) as (Hinv' & Hsame & Hsent).
    specialize (IH P' Hinv').
    destruct (exec transport schedule P') as [tr P''].
    cbn [fst] in *. rewrite actionsOf_cons.
    destruct (Nat.eqb j i) eqn:Hji.
    + apply Nat.eqb_eq in Hji. subst j. rewrite sent_cons.
      destruct Hsent as [[Hs Hb] | (Hs & Hb & Hb')]; rewrite Hs.
      * destruct IH as [IH | [IHb IH]]; [left; exact IH |].
        right. split; [apply Hb, IHb | exact IH].
      * destruct IH as [IH | [IHb IH]].
        -- right. split; [exact Hb |]. rewrite IH. reflexivity.
        -- rewrite Hb' in IHb. discriminate.
    + apply Nat.eqb_neq in Hji.
      rewrite <- (Hsame i) by (intros ->; apply Hji; reflexivity).
      exact IH.
Qed.

(** X14.  Under any schedule, a goroutine that calls [Mkdirs] sends at most
    one request, and it is the mkdirs request for its own path. *)
Theorem Mkdirs_call_sends_its_request_once
    (paths : nat -> string) (w : World) (schedule : list nat) (i : nat) :
  sent (actionsOf i (fst (exec transport schedule (mkdirsPool paths w)))) = []
  \/
  sent (actionsOf i (fst (exec transport schedule (mkdirsPool paths w)))) =
  [{| method := "POST"; endpoint := "/workspace/mkdirs";
      apiVersion := "2.0"; headers := None;
      data := mkDirsRequest (paths i); secretsMask := None |}].
Proof.
  destruct (exec_sent paths i schedule (mkdirsPool paths w)) as [H | [_ H]].
  - intros j. apply onStart.
  - left. exact H.
  - right. exact H.
Qed.


(** X15.  A goroutine that is scheduled four times in a row from the start
    runs its [Mkdirs] to the end, and the two semantics agree on it: it
    locks, sends, receives and unlocks, it has returned what [run] returns
    for [Mkdirs] on the same workspace, the workspace is as [run] leaves it
    and the mutex is free. *)
Theorem Mkdirs_goroutine_alone
    (paths : nat -> string) (w : World) (i : nat) :
  let req := mkdirsCall (paths i) in
  let out := exec transport [i; i; i; i] (mkdirsPool paths w) in
  let seq := run transport (Mkdirs (paths i))
                 {| world := w; locked := false |} in
  map snd (fst out) =
    [ActLock mkdirMtx; ActSend req; ActReceive req (fst (transport req w));
     ActUnlock mkdirMtx] /\
  Returned (snd (fst (transport req w))) = fst (fst seq) /\
  threads (snd out) i = Running (Ret (snd (fst (transport req w)))) /\
  remote (snd out) = world (snd seq) /\
  holder (snd out) = None.
Proof.
  cbn zeta. rewrite run_Mkdirs. cbn [locked world fst snd].
  unfold exec, pstep, mkdirsPool, setThread.
  do 2 (cbn -[Nat.eqb]; rewrite ?Nat.eqb_refl).
  change (transport _ w) with (transport (mkdirsCall (paths i)) w).
  destruct (transport (mkdirsCall (paths i)) w) as [[body err] w'].
  do 3 (cbn -[Nat.eqb]; rewrite ?Nat.eqb_refl).
  repeat split.
Qed.

(** ** [Create] and the flat [List] on a failed call *)

(** X16.  Whatever [performQuery] does, [Create] issues one request, a POST
    of [/workspace/import] with the five fields as given, ignores the body
    of the response, and returns the error of the call as it is. *)
Theorem Create_returns_the_error_of_its_call
    (path content : string) (language : model.Language)
    (format : model.ExportFormat) (overwrite : bool) (s : State World) :
  let req := {| method := "POST"; endpoint := "/workspace/import";
                apiVersion := "2.0"; headers := None;
                data := NotebookImportRequest content path language format
                                              overwrite;
                secretsMask := None |} in
  run transport (Create path content language format overwrite) s =
  (Returned (snd (fst (transport req (world s)))),
   [EvQuery req (fst (transport req (world s)))],
   after s (snd (transport req (world s)))).
Proof. apply run_Create. Qed.

(** X17.  When the list call for [path] fails with [e], the flat [List]
    returns nil and [e] and does not decode the body, whatever it is. *)
Theorem List_flat_on_a_failed_call
    (fuel : nat) (path : string) (s : State World)
    (body : list byte) (e : Err) (w : World) :
  transport (listCall path) (world s) = ((body, Some e), w) ->
  run transport (List fuel path false) s =
  (Returned ([], Some e), [EvQuery (listCall path) (body, Some e)],
   after s w).
Proof.
  intros Ht. unfold List. rewrite run_list_, Ht. reflexivity.
Qed.


End More.

(** * The further properties on the demo workspace *)

Lemma only_Mkdirs_takes_the_mutex_witness :
  (forall path, CallDelete "/d" true <> CallMkdirs path) /\
  Forall isQuery
    (snd (fst (run demoTransport (invoke (CallDelete "/d" true)) demoHeld))) /\
  locked (snd (run demoTransport (invoke (CallDelete "/d" true)) demoHeld)) =
    locked demoHeld /\
  fst (fst (run demoTransport (invoke (CallDelete "/d" true)) demoHeld))
    <> Blocked /\
  fst (fst (run demoTransport (invoke (CallDelete "/d" true)) demoHeld))
    <> Fatal.
Proof.
  assert (H : forall path, CallDelete "/d" true <> CallMkdirs path)
    by discriminate.
  split; [exact H |].
  apply (only_Mkdirs_takes_the_mutex demoTransport demoHeld H).
Defined.

Lemma one_remote_call_each_witness :
  locked demoStart = false /\
  (forall fuel path, CallRead "/a" <> CallList fuel path true) /\
  Datatypes.length
    (requests (snd (fst (run demoTransport (invoke (CallRead "/a"))
                             demoStart)))) = 1 /\
  exists err, fst (fst (run demoTransport (invoke (CallRead "/a"))
                            demoStart)) = Returned err.
Proof.
  assert (H1 : locked demoStart = false) by reflexivity.
  assert (H2 : forall fuel path, CallRead "/a" <> CallList fuel path true)
    by discriminate.
  split; [exact H1 |]. split; [exact H2 |].
  apply (one_remote_call_each demoTransport demoStart H1 H2).
Defined.

Lemma recursiveAddPaths_only_appends_notebooks_witness :
  fst (fst (run demoTransport
                (recursiveAddPaths 5 "/bad" [demoNotebook "/x"]) demoStart)) =
    Returned ([demoNotebook "/x"; demoNotebook "/bad/a"],
              Some "RESOURCE_DOES_NOT_EXIST") /\
  exists new,
    [demoNotebook "/x"; demoNotebook "/bad/a"] = [demoNotebook "/x"] ++ new /\
    Forall (fun v => ObjectType v = model.Notebook) new.
Proof.
  assert (H : fst (fst (run demoTransport
                            (recursiveAddPaths 5 "/bad" [demoNotebook "/x"])
                            demoStart)) =
              Returned ([demoNotebook "/x"; demoNotebook "/bad/a"],
                        Some "RESOURCE_DOES_NOT_EXIST")) by reflexivity.
  split; [exact H |].
  apply (recursiveAddPaths_only_appends_notebooks
           demoTransport 5 "/bad" [demoNotebook "/x"] demoStart H).
Defined.

Lemma List_recursive_of_an_empty_directory_witness :
  demoTransport (listCall "/d/e") (world demoStart) =
    ((list_byte_of_string "/d/e", None), 1) /\
  json_Unmarshal (list_byte_of_string "/d/e") zeroList =
    ({| Objects := [] |}, (None : @error string)) /\
  run demoTransport (List 1 "/d/e" true) demoStart =
  (Returned ([], None),
   [EvQuery (listCall "/d/e") (list_byte_of_string "/d/e", None)],
   after demoStart 1).
Proof.
  assert (H1 : demoTransport (listCall "/d/e") (world demoStart) =
               ((list_byte_of_string "/d/e", None), 1)) by reflexivity.
  assert (H2 : json_Unmarshal (list_byte_of_string "/d/e") zeroList =
               ({| Objects := [] |}, (None : @error string)))
    by reflexivity.
  split; [exact H1 |]. split; [exact H2 |].
  apply (List_recursive_of_an_empty_directory
           demoTransport 0 "/d/e" demoStart H1 H2).
Defined.

Lemma List_recursive_on_a_decoding_error_witness :
  demoTransport (listCall "/d") (world demoStart) =
    ((list_byte_of_string "/d", None), 1) /\
  demoPartialList (list_byte_of_string "/d") zeroList =
    ({| Objects := [demoDirectory "/d"] |},
     Some "unexpected end of JSON input") /\
  run demoTransport (@List string demoPartialList 3 "/d" true) demoStart =
    (Returned ([], Some "unexpected end of JSON input"),
     [EvQuery (listCall "/d") (list_byte_of_string "/d", None)],
     after demoStart 1) /\
  run demoTransport (@List string demoPartialList 3 "/d" false) demoStart =
    (Returned ([demoDirectory "/d"], Some "unexpected end of JSON input"),
     [EvQuery (listCall "/d") (list_byte_of_string "/d", None)],
     after demoStart 1).
Proof.
  assert (H1 : demoTransport (listCall "/d") (world demoStart) =
               ((list_byte_of_string "/d", None), 1)) by reflexivity.
  assert (H2 : @json_Unmarshal string notebookListT demoPartialList
                               (list_byte_of_string "/d") zeroList =
               ({| Objects := [demoDirectory "/d"] |},
                Some "unexpected end of JSON input")) by reflexivity.
  split; [exact H1 |]. split; [exact H2 |].
  apply (List_recursive_on_a_decoding_error
           (unmarshalList := demoPartialList)
           demoTransport 2 "/d" demoStart H1 H2).
Defined.

Lemma List_recursive_returns_the_listed_notebooks_witness :
  run demoTransport (List 4 "/" true) demoStart =
  (Returned ([demoNotebook "/a"; demoNotebook "/d/b"; demoNotebook "/z"],
             None),
   [EvQuery (listCall "/") (list_byte_of_string "/", None);
    EvQuery (listCall "/d") (list_byte_of_string "/d", None);
    EvQuery (listCall "/d/e") (list_byte_of_string "/d/e", None)],
   {| world := 3; locked := false |}) /\
  Permutation
    [demoNotebook "/a"; demoNotebook "/d/b"; demoNotebook "/z"]
    [demoNotebook "/a"; demoNotebook "/z"; demoNotebook "/d/b"].
Proof.
  assert (H : run demoTransport (List 4 "/" true) demoStart =
    (Returned ([demoNotebook "/a"; demoNotebook "/d/b"; demoNotebook "/z"],
               None),
     [EvQuery (listCall "/") (list_byte_of_string "/", None);
      EvQuery (listCall "/d") (list_byte_of_string "/d", None);
      EvQuery (listCall "/d/e") (list_byte_of_string "/d/e", None)],
     {| world := 3; locked := false |})) by reflexivity.
  split; [exact H |].
  apply (List_recursive_returns_the_listed_notebooks demoTransport 4 "/"
           demoStart H).
Defined.

Lemma List_recursive_calls_once_per_listed_directory_witness :
  run demoTransport (List 4 "/" true) demoStart =
  (Returned ([demoNotebook "/a"; demoNotebook "/d/b"; demoNotebook "/z"],
             None),
   [EvQuery (listCall "/") (list_byte_of_string "/", None);
    EvQuery (listCall "/d") (list_byte_of_string "/d", None);
    EvQuery (listCall "/d/e") (list_byte_of_string "/d/e", None)],
   {| world := 3; locked := false |}) /\
  3 = S (Datatypes.length [demoDirectory "/d"; demoDirectory "/d/e"]).
Proof.
  assert (H : run demoTransport (List 4 "/" true) demoStart =
    (Returned ([demoNotebook "/a"; demoNotebook "/d/b"; demoNotebook "/z"],
               None),
     [EvQuery (listCall "/") (list_byte_of_string "/", None);
      EvQuery (listCall "/d") (list_byte_of_string "/d", None);
      EvQuery (listCall "/d/e") (list_byte_of_string "/d/e", None)],
     {| world := 3; locked := false |})) by reflexivity.
  split; [exact H |].
  apply (List_recursive_calls_once_per_listed_directory demoTransport 4 "/"
           demoStart H).
Defined.

Lemma List_result_does_not_depend_on_fuel_witness :
  3 <= 7 /\
  fst (fst (run demoTransport (List 3 "/" true) demoStart)) <> Diverged /\
  run demoTransport (List 7 "/" true) demoStart =
  run demoTransport (List 3 "/" true) demoStart.
Proof.
  assert (H1 : 3 <= 7) by lia.
  assert (H2 : fst (fst (run demoTransport (List 3 "/" true) demoStart))
               <> Diverged) by discriminate.
  split; [exact H1 |]. split; [exact H2 |].
  apply (List_result_does_not_depend_on_fuel
           demoTransport "/" true demoStart H1 H2).
Defined.

Lemma List_flat_on_a_failed_call_witness :
  demoTransport (listCall "/nowhere") (world demoStart) =
    (([], Some "RESOURCE_DOES_NOT_EXIST"), 1) /\
  run demoTransport (List 0 "/nowhere" false) demoStart =
  (Returned ([], Some "RESOURCE_DOES_NOT_EXIST"),
   [EvQuery (listCall "/nowhere") ([], Some "RESOURCE_DOES_NOT_EXIST")],
   after demoStart 1).
Proof.
  assert (H : demoTransport (listCall "/nowhere") (world demoStart) =
              (([], Some "RESOURCE_DOES_NOT_EXIST"), 1)) by reflexivity.
  split; [exact H |].
  apply (List_flat_on_a_failed_call demoTransport 0 "/nowhere" demoStart H).
Defined.
